(** * react-image-annotate: the MainLayout dispatch and view-derivation core

    A shallow embedding of [src/MainLayout/index.js]: the bound-action
    cache ([action]), the derived view data handed to the canvas and the
    side panels, the refocus handler, and the two [return] statements of
    the component.

    Conventions.
    - A JavaScript object that is a value (an argument, a dispatched
      record) is a plain one: it is represented by its own enumerable
      data properties, all writable, a finite map from property names to
      values; its prototype is [Object.prototype].
    - An assignment [o[p] = v] follows the prototype chain of [o]: the
      accessor [__proto__] of [Object.prototype] is the one inherited
      property that is not a writable data property.
    - A function object is represented by its identity (a reference into
      the heap of closures created so far), so that reference equality of
      callables is equality of references.
    - An operation that can raise ([x.p] with [x] undefined or null, a
      call of something that is not a function) returns a [result]. *)

From Stdlib Require Import ZArith QArith String Ascii List Lia.
From stdpp Require Import gmap strings list fin_maps pretty.

Set Warnings "-register-all,-clear-no-such-hyp".
Local Open Scope string_scope.
Local Open Scope Z_scope.

(** ** JavaScript values *)

Module JS.

Inductive value : Type :=
| VUndefined
| VNull
| VBool (b : bool)
| VNum (n : Z)
| VStr (s : string)
| VObj (props : gmap string value).

Inductive error : Type :=
| TypeError (msg : string).

Inductive result (A : Type) : Type :=
| Ok (a : A)
| Throw (e : error).

Arguments Ok {A} a.
Arguments Throw {A} e.

(** [Boolean(v)]. *)
Definition truthy (v : value) : bool :=
  match v with
  | VUndefined | VNull => false
  | VBool b => b
  | VNum n => negb (n =? 0)
  | VStr s => negb (String.eqb s EmptyString)
  | VObj _ => true
  end.

(** [args[i]] on an array: [undefined] past the end. *)
Definition arg_at (args : list value) (i : nat) : value :=
  default VUndefined (args !! i).

(** The indexed characters of a string, as [{...s}] copies them. *)
Fixpoint string_props (i : nat) (s : string) : gmap string value :=
  match s with
  | EmptyString => ∅
  | String c r => <[pretty i := VStr (String c EmptyString)]> (string_props (S i) r)
  end.

(** The properties [{...v}] copies: the own enumerable properties of an
    object, the indexed characters of a string, nothing for [undefined],
    [null], a boolean or a number. *)
Definition spread (v : value) : gmap string value :=
  match v with
  | VObj props => props
  | VStr s => string_props 0 s
  | VUndefined | VNull | VBool _ | VNum _ => ∅
  end.

(** The object literal [{k0: v0, ..., kn: vn}]: fields are defined from
    left to right, a later field replacing an earlier one of the same
    name. *)
Definition define_field (acc : gmap string value) (kv : string * value)
    : gmap string value :=
  <[kv.1 := kv.2]> acc.

Definition object_literal (fields : list (string * value)) : gmap string value :=
  foldl define_field ∅ fields.

End JS.

Export JS.

(** ** The bound-action cache ([action], lines 62-79) *)

Module ActionCache.

(** The identity of a dispatch function. *)
Definition sink : Type := nat.

(** An action handed to a dispatch function. *)
Definition dispatched : Type := (sink * gmap string value)%type.

(** The arrow function [fn] of line 68 closes over [type], [params] and
    the [dispatch] of the render that created it. *)
Record closure : Type := Closure {
  fn_type : string;
  fn_params : list string;
  fn_dispatch : sink;
}.

Definition fnref : Type := nat.

(** One mounted MainLayout: the function objects created so far and the
    object held by [useRef({})]. *)
Record instance : Type := Instance {
  fns : list closure;
  memoizedActionFns : gmap string fnref;
}.

Definition mount : instance :=
  {| fns := []; memoizedActionFns := ∅ |}.

(** [`${type}(${params.join(",")})`] *)
Definition fnKey (type : string) (params : list string) : string :=
  type +:+ "(" +:+ String.concat "," params +:+ ")".

(** [const action = (type, ...params) => ...]; a memoized entry is a
    function object, hence truthy. *)
Definition action (dispatch : sink) (type : string) (params : list string)
    (inst : instance) : fnref * instance :=
  match memoizedActionFns inst !! fnKey type params with
  | Some f => (f, inst)
  | None =>
      let f := length (fns inst) in
      (f, {| fns := fns inst ++ [Closure type params dispatch];
             memoizedActionFns := <[fnKey type params := f]> (memoizedActionFns inst) |})
  end.

(** The prototype of an object: [Object.prototype], as for the literal
    [{}]; [null]; or a plain object. *)
Inductive proto : Type :=
| ObjectPrototype
| NullPrototype
| PlainObject (props : gmap string value).

(** The accumulator of [reduce]: its own properties and its prototype. *)
Record object : Type := Object {
  own : gmap string value;
  prototype : proto;
}.

(** The literal [{}]. *)
Definition empty_object : object := {| own := ∅; prototype := ObjectPrototype |}.

(** Whether [acc.__proto__ = v] reaches the setter [Object.prototype]
    has for [__proto__]: [acc] has no own property of that name, and no
    object of its prototype chain before [Object.prototype] has one. *)
Definition reaches_setter (acc : object) : bool :=
  match own acc !! "__proto__" with
  | Some _ => false
  | None =>
      match prototype acc with
      | ObjectPrototype => true
      | NullPrototype => false
      | PlainObject props => bool_decide (props !! "__proto__" = None)
      end
  end.

(** [acc[p] = v]. A name other than [__proto__] is, along the prototype
    chain, absent or a writable data property: the assignment defines or
    replaces an own property of [acc]. The same holds for [__proto__]
    when the assignment does not reach the setter of [Object.prototype];
    when it does, the setter makes an object or [null] the prototype of
    [acc], ignores any other value, and defines no own property. *)
Definition assign (acc : object) (p : string) (v : value) : object :=
  if String.eqb p "__proto__" && reaches_setter acc
  then match v with
       | VObj props => {| own := own acc; prototype := PlainObject props |}
       | VNull => {| own := own acc; prototype := NullPrototype |}
       | VUndefined | VBool _ | VNum _ | VStr _ => acc
       end
  else {| own := <[p := v]> (own acc); prototype := prototype acc |}.

(** [params.reduce((acc, p, i) => ((acc[p] = args[i]), acc), {})], from
    index [i] on. *)
Fixpoint reduce_params (params : list string) (i : nat) (args : list value)
    (acc : object) : object :=
  match params with
  | [] => acc
  | p :: ps => reduce_params ps (S i) args (assign acc p (arg_at args i))
  end.

(** [{ type, ...rest }]: [type] is defined first, then the properties of
    [rest] are copied over it. *)
Definition with_type (type : string) (rest : gmap string value) : gmap string value :=
  rest ∪ {["type" := VStr type]}.

(** The body of [fn]; the spread copies the own properties of the
    accumulator. *)
Definition fn_body (c : closure) (args : list value) : dispatched :=
  if decide (0 < length (fn_params c))%nat
  then (fn_dispatch c,
        with_type (fn_type c) (own (reduce_params (fn_params c) 0 args empty_object)))
  else (fn_dispatch c, with_type (fn_type c) (spread (arg_at args 0))).

(** Calling the value [f] with [args]: a [TypeError] unless [f] is a
    function object. *)
Definition invoke (inst : instance) (f : fnref) (args : list value) : result dispatched :=
  match fns inst !! f with
  | Some c => Ok (fn_body c args)
  | None => Throw (TypeError "not a function")
  end.

(** Every memoized reference is a live function object, created for the
    key it is memoized under. *)
Definition wf (inst : instance) : Prop :=
  forall k f, memoizedActionFns inst !! k = Some f ->
    exists c, fns inst !! f = Some c /\ fnKey (fn_type c) (fn_params c) = k.

(** The instances a component can be in: mounted, then any number of
    [action] calls, with whatever dispatch each render received. *)
Inductive reachable : instance -> Prop :=
| reachable_mount : reachable mount
| reachable_action d type params inst :
    reachable inst -> reachable (action d type params inst).2.

(** A sequence of [action] calls, each with the dispatch of its render. *)
Definition run_actions (calls : list (sink * string * list string)) (inst : instance)
    : instance :=
  foldl (fun i c => (action c.1.1 c.1.2 c.2 i).2) inst calls.

(** What the specification asks of the callable bound for [type] and
    [params] on arguments [args]: the record with [type] and one field per
    declared name, the i-th name holding the i-th argument. *)
Definition spec_action (type : string) (params : list string) (args : list value)
    : gmap string value :=
  object_literal (("type", VStr type) :: zip params args).

(** Whether the character [c] occurs in [s]. *)
Fixpoint has_char (c : ascii) (s : string) : bool :=
  match s with
  | EmptyString => false
  | String c' r => if Ascii.eqb c c' then true else has_char c r
  end.

(** An action kind that does not contain an opening parenthesis. *)
Definition plain_kind (type : string) : Prop := has_char "("%char type = false.

(** A parameter name that is not empty and contains no comma. *)
Definition plain_name (p : string) : Prop := p <> EmptyString /\ has_char ","%char p = false.

End ActionCache.

Export ActionCache.

(** ** The annotation state *)

Module Model.

(** [state.annotationType], compared with ["image"] and ["video"]. *)
Inductive AnnotationType : Type :=
| ImageMode
| VideoMode.

(** Modelled from the spec: a region (glossary, section 4.4), by what the
    implied-region engine needs of it: its stable identity, whether its
    geometry may be interpolated between keyframes, and its numeric
    geometry. *)
Record Region : Type := {
  region_id : string;
  region_interpolable : bool;
  region_geometry : list Q;
}.

(** Modelled from the spec: an entry of [images] (section 3): [src] is its
    identity key, the other fields are optional. *)
Record Image : Type := {
  src : string;
  name : option string;
  regions : option (list Region);
  frameTime : option Z;
  realSize : option value;
}.

(** Modelled from the spec: the type [MainLayoutState] of
    [src/MainLayout/types.js] is not among the sources; the fields are
    those of section 3 of the specification and those [MainLayout] reads.
    [other] holds the fields that are handed on unread. *)
Record MainLayoutState : Type := {
  annotationType : AnnotationType;
  images : option (list Image);
  selectedImage : option string;
  selectedImageFrameTime : option Z;
  videoSrc : option string;
  videoName : option string;
  videoDuration : option Z;
  currentVideoTime : Z;
  videoPlaying : bool;
  keyframes : option (gmap Z (list Region));
  history : value;
  lastAction : value;
  selectedTool : string;
  taskDescription : option string;
  labelImages : bool;
  showTags : bool;
  showMask : bool;
  fullScreen : bool;
  settingsOpen : bool;
  other : gmap string value;
}.

(** [state.f] for a field handed on unread. *)
Definition field (st : MainLayoutState) (f : string) : value :=
  default VUndefined (other st !! f).

End Model.

Export Model.

(** ** The active-selection resolver *)

Module Selection.

(** The position of the first image whose [src] is [key]. *)
Fixpoint findIndex (key : string) (imgs : list Image) : option nat :=
  match imgs with
  | [] => None
  | img :: rest =>
      if String.eqb (src img) key then Some O
      else S <$> findIndex key rest
  end.

(** Modelled from the spec: [getActiveImage] of
    [src/Annotator/reducers/get-active-image.js], which is not among the
    sources (section 4.3). In image mode [images] is scanned for the entry
    whose [src] equals [selectedImage]; the index and the entry are absent
    when none matches. In video mode there is no index, and the active
    image is a view built from [videoSrc], [currentVideoTime] and
    [videoName]. *)
Definition getActiveImage (st : MainLayoutState) : option nat * option Image :=
  match annotationType st with
  | ImageMode =>
      match selectedImage st, images st with
      | Some key, Some imgs =>
          match findIndex key imgs with
          | Some i => (Some i, imgs !! i)
          | None => (None, None)
          end
      | _, _ => (None, None)
      end
  | VideoMode =>
      (None, Some {| src := default EmptyString (videoSrc st);
                     name := videoName st;
                     regions := None;
                     frameTime := Some (currentVideoTime st);
                     realSize := None |})
  end.

End Selection.

Export Selection.

(** ** The implied video region engine *)

Module Implied.

(** Modelled from the spec: the keyframe nearest to [t] among those
    strictly before it. *)
Definition nearest_before (kfs : gmap Z (list Region)) (t : Z)
    : option (Z * list Region) :=
  foldr (fun kv best =>
           if decide (kv.1 < t)
           then match best with
                | Some b => if decide (b.1 < kv.1) then Some kv else best
                | None => Some kv
                end
           else best)
        None (map_to_list kfs).

(** Modelled from the spec: the keyframe nearest to [t] among those
    strictly after it. *)
Definition nearest_after (kfs : gmap Z (list Region)) (t : Z)
    : option (Z * list Region) :=
  foldr (fun kv best =>
           if decide (t < kv.1)
           then match best with
                | Some b => if decide (kv.1 < b.1) then Some kv else best
                | None => Some kv
                end
           else best)
        None (map_to_list kfs).

(** Modelled from the spec: geometry at [t], linear in time between
    [(t0, g0)] and [(t1, g1)]. *)
Definition lerp (t0 t1 t : Z) (g0 g1 : list Q) : list Q :=
  zip_with (fun a b => (a + (b - a) * (inject_Z (t - t0) / inject_Z (t1 - t0)))%Q) g0 g1.

(** Modelled from the spec: the regions implied strictly between two
    keyframes (section 4.4). A region of the
    earlier keyframe that is also in the later one (same identity) is
    carried through, its geometry interpolated, or kept as in the earlier
    keyframe when the region is not interpolable; a region of only one
    keyframe is left out. *)
Definition between (t0 : Z) (r0 : list Region) (t1 : Z) (r1 : list Region) (t : Z)
    : list Region :=
  omap (fun a =>
          match List.find (fun b => String.eqb (region_id b) (region_id a)) r1 with
          | Some b =>
              Some (if region_interpolable a
                    then {| region_id := region_id a;
                            region_interpolable := true;
                            region_geometry :=
                              lerp t0 t1 t (region_geometry a) (region_geometry b) |}
                    else a)
          | None => None
          end) r0.

(** Modelled from the spec: the engine behind [useImpliedVideoRegions]
    ([src/MainLayout/use-implied-video-regions.js] is not among the
    sources), section 4.4: a time that is a keyframe key yields that
    keyframe's regions; a time between two keyframes yields [between]; a
    time before the first or after the last keyframe yields the nearest
    keyframe's regions; no keyframes yield no regions. *)
Definition impliedRegions (kfs : gmap Z (list Region)) (t : Z) : list Region :=
  match kfs !! t with
  | Some rs => rs
  | None =>
      match nearest_before kfs t, nearest_after kfs t with
      | Some (t0, r0), Some (t1, r1) => between t0 r0 t1 r1 t
      | Some (_, r0), None => r0
      | None, Some (_, r1) => r1
      | None, None => []
      end
  end.

(** Modelled from the spec: [useImpliedVideoRegions(state)], called at
    line 95, is the engine on the keyframes and the current time of the
    state; a state without keyframes has none. *)
Definition useImpliedVideoRegions (st : MainLayoutState) : list Region :=
  impliedRegions (default ∅ (keyframes st)) (currentVideoTime st).

End Implied.

Export Implied.

(** ** The refocus handler ([refocusOnMouseEvent], lines 97-104) *)

Module Focus.

(** A DOM element by identity. *)
Definition elt : Type := nat.

(** The document tree; [focusable] tells whether [focus()] moves the
    focus to the element. *)
Inductive dom_node : Type :=
| DomNode (id : elt) (focusable : bool) (children : list dom_node).

Fixpoint node_ids (n : dom_node) : list elt :=
  match n with
  | DomNode i _ cs => i :: flat_map node_ids cs
  end.

Fixpoint find_node (x : elt) (n : dom_node) : option dom_node :=
  match n with
  | DomNode i _ cs =>
      if decide (i = x) then Some n
      else (fix go (l : list dom_node) : option dom_node :=
              match l with
              | [] => None
              | c :: l' =>
                  match find_node x c with
                  | Some r => Some r
                  | None => go l'
                  end
              end) cs
  end.

Definition is_focusable (n : dom_node) : bool :=
  match n with
  | DomNode _ f _ => f
  end.

(** The part of the browser the handler touches: the document, the
    focused element ([document.activeElement], possibly [null]) and the
    [focus()] calls made so far, oldest first. *)
Record browser : Type := Browser {
  document : dom_node;
  activeElement : option elt;
  focusCalls : list elt;
}.

(** [a.contains(b)]: [b] is [a] or a descendant of [a]; [false] for
    [null]. An element outside the document has no descendants here. *)
Definition contains (d : browser) (a : elt) (b : option elt) : bool :=
  match b with
  | None => false
  | Some x =>
      match find_node a (document d) with
      | Some n => bool_decide (x ∈ node_ids n)
      | None => bool_decide (x = a)
      end
  end.

(** [x.focus()]: the call is recorded, and the focus moves to [x] when
    [x] is a focusable element of the document. *)
Definition focus (x : elt) (d : browser) : browser :=
  {| document := document d;
     activeElement :=
       match find_node x (document d) with
       | Some n => if is_focusable n then Some x else activeElement d
       | None => activeElement d
       end;
     focusCalls := focusCalls d ++ [x] |}.

(** Whether [x.focus()] moves the focus. *)
Definition takes_focus (d : browser) (x : elt) : bool :=
  match find_node x (document d) with
  | Some n => is_focusable n
  | None => false
  end.

(** The handler, for [innerContainerRef.current] and the event's target. *)
Definition refocusOnMouseEvent (innerContainerRef : option elt) (target : elt)
    (d : browser) : browser :=
  match innerContainerRef with
  | None => d
  | Some container =>
      if contains d container (activeElement d) then d
      else if contains d container (Some target)
           then focus target (focus container d)
           else d
  end.

End Focus.

Export Focus.

(** ** The component ([MainLayout], lines 51-385) *)

Module Layout.

(** The function values that appear as props. *)
Inductive callback : Type :=
| BoundAction (f : fnref)
| DispatchFn (d : sink)
| ConsoleLog
| OnRegionClassAdded
| RefocusOnMouseEvent
| OnFullscreenChange
| OnSettingsClose.

(** What a prop or a child can hold: plain data, a piece of the state,
    a function, an element, or an array of these. *)
Inductive node : Type :=
| Data (v : value)
| Regions (rs : list Region)
| ImageEntry (img : Image)
| Images (imgs : list Image)
| Keyframes (kfs : gmap Z (list Region))
| StateRef (st : MainLayoutState)
| Handler (c : callback)
| Imported (name : string)
| Element (component : string) (props : list (string * node))
| Nodes (items : list node).

(** The props of the component other than [state]. *)
Record Props : Type := {
  dispatch : sink;
  alwaysShowNextButton : bool;
  alwaysShowPrevButton : bool;
  RegionEditLabel : value;
}.

(** What the hooks and the browser supply: [useSettings()],
    [useStyles()], [useDispatchHotkeyHandlers({dispatch})] and
    [window.localStorage]. *)
Record Env : Type := {
  settings : list (string * value);
  classes : gmap string string;
  hotkeyHandlers : value;
  localStorage : gmap string string;
}.

(** How a statement ends: normally, by [return], or by a throw. *)
Inductive completion (A : Type) : Type :=
| Normal (a : A)
| Return (v : node)
| Abrupt (e : error).

Arguments Normal {A} a.
Arguments Return {A} v.
Arguments Abrupt {A} e.

(** A piece of the function body: it runs on the instance (the memo
    table of [action]) and ends in a completion. *)
Definition M (A : Type) : Type := instance -> completion A * instance.

#[export] Instance M_ret : MRet M := fun A a inst => (Normal a, inst).

#[export] Instance M_bind : MBind M := fun A B k m inst =>
  match m inst with
  | (Normal a, inst') => k a inst'
  | (Return v, inst') => (Return v, inst')
  | (Abrupt e, inst') => (Abrupt e, inst')
  end.

(** [return v] *)
Definition return_ (v : node) : M unit := fun inst => (Return v, inst).

(** An expression that may throw. *)
Definition eval {A : Type} (r : result A) : M A := fun inst =>
  match r with
  | Ok a => (Normal a, inst)
  | Throw e => (Abrupt e, inst)
  end.

(** [action(type, ...params)] as a prop value. *)
Definition bound (d : sink) (type : string) (params : list string) : M node :=
  fun inst =>
    let '(f, inst') := action d type params inst in
    (Normal (Handler (BoundAction f)), inst').

(** The value a call of the function yields. *)
Definition call_component (body : M unit) (inst : instance) : result node * instance :=
  match body inst with
  | (Normal _, inst') => (Ok (Data VUndefined), inst')
  | (Return v, inst') => (Ok v, inst')
  | (Abrupt e, inst') => (Throw e, inst')
  end.

Definition bool_node (b : bool) : node := Data (VBool b).
Definition str_node (s : string) : node := Data (VStr s).
Definition num_node (n : Z) : node := Data (VNum n).

(** An optional field: its value, or [undefined]. *)
Definition opt_node {A : Type} (f : A -> node) (o : option A) : node :=
  match o with
  | Some a => f a
  | None => Data VUndefined
  end.

(** An optional string as a value. *)
Definition opt_node_value (o : option string) : value :=
  match o with
  | Some s => VStr s
  | None => VUndefined
  end.

(** [s.includes(needle)] *)
Fixpoint includes (needle s : string) : bool :=
  if String.prefix needle s then true
  else match s with
       | EmptyString => false
       | String _ r => includes needle r
       end.

(** [{ name: n }] *)
Definition named (n : string) : node := Data (VObj {["name" := VStr n]}).

(** [{ name: n, helperText: h }], with [selected: true] when [sel]. *)
Definition tool (n h : string) (sel : bool) : node :=
  Data (VObj (if sel
              then <["selected" := VBool true]>
                     (<["helperText" := VStr h]> {["name" := VStr n]})
              else <["helperText" := VStr h]> {["name" := VStr n]})).

(** [array.filter(Boolean)] on entries that are an element or a falsy
    value. *)
Definition filter_Boolean (items : list (option node)) : list node :=
  omap id items.

(** [{...settings}] as props: plain data. *)
Definition spread_settings (l : list (string * value)) : list (string * node) :=
  map (fun kv => (kv.1, Data kv.2)) l.

(** The components of the elements in a tree. *)
Fixpoint components (n : node) : list string :=
  match n with
  | Element c ps => c :: flat_map (fun kp => components kp.2) ps
  | Nodes l => flat_map components l
  | _ => []
  end.

(** The function values in a tree. *)
Fixpoint handlers (n : node) : list callback :=
  match n with
  | Handler h => [h]
  | Element _ ps => flat_map (fun kp => handlers kp.2) ps
  | Nodes l => flat_map handlers l
  | _ => []
  end.

(** The components of the first [return] and those only the second
    [return] mentions. *)
Definition first_return_components : list string :=
  ["Workspace"; "KeyframeTimeline"; "DebugBox"; "TaskDescription";
   "TagsSidebarBox"; "ImageSelector"; "RegionSelector"; "KeyframesSelector";
   "HistorySidebarBox"; "ImageCanvas"].

Definition second_return_components : list string :=
  ["Fullscreen"; "HotkeyDiv"; "div"; "Header"; "IconTools"; "Sidebar";
   "SettingsDialog"].

(** The prop [k] of an element: the last one given under that name. *)
Definition last_prop (k : string) (acc : option node) (kp : string * node) : option node :=
  if String.eqb kp.1 k then Some kp.2 else acc.

Definition prop_of (k : string) (n : node) : option node :=
  match n with
  | Element _ ps => foldl (last_prop k) None ps
  | _ => None
  end.

(** The element a render returned, if it returned one. *)
Definition rendered (r : result node * instance) : option node :=
  match r.1 with
  | Ok n => Some n
  | Throw _ => None
  end.

(** The first entry of an array. *)
Definition first_item (n : node) : option node :=
  match n with
  | Nodes (x :: _) => Some x
  | _ => None
  end.

(** [classnames(...)]: the truthy class names, separated by spaces. *)
Definition classnames (names : list (option string)) : string :=
  String.concat " " (filter (fun s => s <> EmptyString) (omap id names)).

Section Render.

Variable env : Env.
Variable props : Props.
Variable state : MainLayoutState.

Let d : sink := dispatch props.
Let is_image : bool :=
  match annotationType state with ImageMode => true | VideoMode => false end.
Let is_video : bool :=
  match annotationType state with VideoMode => true | ImageMode => false end.

(** The handler given to [useKey] for key 27 (lines 87-89). *)
Definition onEscape : dispatched := (d, {["type" := VStr "CANCEL"]}).

(** [state.images[currentImageIndex + 1]] when [currentImageIndex] is not
    [null] (lines 82-85). *)
Definition nextImage_of (currentImageIndex : option nat) : result (option Image) :=
  match currentImageIndex with
  | None => Ok None
  | Some i =>
      match images state with
      | Some imgs => Ok (imgs !! S i)
      | None => Throw (TypeError "Cannot read properties of undefined")
      end
  end.

(** The [regions] prop of the canvas (lines 117-121):
    [activeImage.regions || []] in image mode, the implied regions
    otherwise. *)
Definition canvas_regions (activeImage : option Image) (impliedVideoRegions : list Region)
    : result (list Region) :=
  match annotationType state with
  | ImageMode =>
      match activeImage with
      | Some img => Ok (default [] (regions img))
      | None => Throw (TypeError "Cannot read properties of null (reading 'regions')")
      end
  | VideoMode => Ok impliedVideoRegions
  end.

(** [const canvas = <ImageCanvas ... />] (lines 106-165). *)
Definition canvas_element (activeImage : option Image) (impliedVideoRegions : list Region)
    : M node :=
  regions ← eval (canvas_regions activeImage impliedVideoRegions);
  onMouseMove ← bound d "MOUSE_MOVE" [];
  onMouseDown ← bound d "MOUSE_DOWN" [];
  onMouseUp ← bound d "MOUSE_UP" [];
  onChangeRegion ← bound d "CHANGE_REGION" ["region"];
  onBeginRegionEdit ← bound d "OPEN_REGION_EDITOR" ["region"];
  onCloseRegionEdit ← bound d "CLOSE_REGION_EDITOR" ["region"];
  onDeleteRegion ← bound d "DELETE_REGION" ["region"];
  onBeginBoxTransform ← bound d "BEGIN_BOX_TRANSFORM" ["box"; "directions"];
  onBeginMovePolygonPoint ← bound d "BEGIN_MOVE_POLYGON_POINT" ["polygon"; "pointIndex"];
  onAddPolygonPoint ← bound d "ADD_POLYGON_POINT" ["polygon"; "point"; "pointIndex"];
  onSelectRegion ← bound d "SELECT_REGION" ["region"];
  onBeginMovePoint ← bound d "BEGIN_MOVE_POINT" ["point"];
  onImageLoaded ← bound d "IMAGE_LOADED" ["image"];
  onImageOrVideoLoaded ← bound d "IMAGE_OR_VIDEO_LOADED" ["metadata"];
  onChangeVideoTime ← bound d "CHANGE_VIDEO_TIME" ["newTime"];
  onChangeVideoPlaying ← bound d "CHANGE_VIDEO_PLAYING" ["isPlaying"];
  mret (Element "ImageCanvas" (spread_settings (settings env) ++ [
    ("key", opt_node str_node (selectedImage state));
    ("showMask", bool_node (showMask state));
    ("fullImageSegmentationMode", Data (field state "fullImageSegmentationMode"));
    ("autoSegmentationOptions", Data (field state "autoSegmentationOptions"));
    ("showTags", bool_node (showTags state));
    ("allowedArea", Data (field state "allowedArea"));
    ("regionClsList", Data (field state "regionClsList"));
    ("regionTagList", Data (field state "regionTagList"));
    ("regions", Regions regions);
    ("realSize", match activeImage with
                 | Some img => opt_node Data (realSize img)
                 | None => Data VUndefined
                 end);
    ("videoPlaying", bool_node (videoPlaying state));
    ("imageSrc", if is_image then opt_node str_node (selectedImage state) else Data VNull);
    ("videoSrc", if is_video then opt_node str_node (videoSrc state) else Data VNull);
    ("pointDistancePrecision", Data (field state "pointDistancePrecision"));
    ("createWithPrimary", bool_node (includes "create" (selectedTool state)));
    ("dragWithPrimary", bool_node (String.eqb (selectedTool state) "pan"));
    ("zoomWithPrimary", bool_node (String.eqb (selectedTool state) "zoom"));
    ("showPointDistances", Data (field state "showPointDistances"));
    ("pointDistancePrecision", Data (field state "pointDistancePrecision"));
    ("videoTime", if is_image then opt_node num_node (selectedImageFrameTime state)
                  else num_node (currentVideoTime state));
    ("onMouseMove", onMouseMove);
    ("onMouseDown", onMouseDown);
    ("onMouseUp", onMouseUp);
    ("onChangeRegion", onChangeRegion);
    ("onBeginRegionEdit", onBeginRegionEdit);
    ("onCloseRegionEdit", onCloseRegionEdit);
    ("onDeleteRegion", onDeleteRegion);
    ("onBeginBoxTransform", onBeginBoxTransform);
    ("onBeginMovePolygonPoint", onBeginMovePolygonPoint);
    ("onAddPolygonPoint", onAddPolygonPoint);
    ("onSelectRegion", onSelectRegion);
    ("onBeginMovePoint", onBeginMovePoint);
    ("onImageLoaded", onImageLoaded);
    ("RegionEditLabel", Data (RegionEditLabel props));
    ("onImageOrVideoLoaded", onImageOrVideoLoaded);
    ("onChangeVideoTime", onChangeVideoTime);
    ("onChangeVideoPlaying", onChangeVideoPlaying);
    ("onRegionClassAdded", Handler OnRegionClassAdded)
  ])).

(** [Boolean(window.localStorage.$ANNOTATE_DEBUG_MODE && state)]
    (line 167); [state] is an object, hence truthy. *)
Definition debug_flag : value :=
  default VUndefined (VStr <$> localStorage env !! "$ANNOTATE_DEBUG_MODE").

Definition debugModeOn : bool := truthy debug_flag && true.

(** [debugModeOn && <DebugBox state={debugModeOn} lastAction={state.lastAction} />]
    (lines 237-239). *)
Definition debug_box : option node :=
  if debugModeOn
  then Some (Element "DebugBox" [
         ("state", bool_node debugModeOn);
         ("lastAction", Data (lastAction state))])
  else None.

(** An element built only when [cond] is truthy: [cond && <X ... />]. *)
Definition when (cond : bool) (m : M node) : M (option node) :=
  if cond then e ← m; mret (Some e) else mret None.

(** [activeImage ? activeImage.regions : null] *)
Definition regions_or_null (activeImage : option Image) : node :=
  match activeImage with
  | Some img => opt_node Regions (regions img)
  | None => Data VNull
  end.

(** [(state.images?.length || 0) > 1] *)
Definition several_images : bool :=
  bool_decide (1 < length (default [] (images state)))%nat.

(** The [rightSidebarItems] array before [.filter(Boolean)]
    (lines 236-278). *)
Definition right_sidebar_items (activeImage : option Image) : M (list (option node)) :=
  tags ← when (labelImages state) (
    onChangeImage ← bound d "CHANGE_IMAGE" ["delta"];
    mret (Element "TagsSidebarBox" [
      ("currentImage", opt_node ImageEntry activeImage);
      ("imageClsList", Data (field state "imageClsList"));
      ("imageTagList", Data (field state "imageTagList"));
      ("onChangeImage", onChangeImage);
      ("expandedByDefault", bool_node true)]));
  selector ← when several_images (
    onSelect ← bound d "SELECT_REGION" ["region"];
    mret (Element "ImageSelector" [
      ("onSelect", onSelect);
      ("images", opt_node Images (images state))]));
  onSelectRegion ← bound d "SELECT_REGION" ["region"];
  onDeleteRegion ← bound d "DELETE_REGION" ["region"];
  onChangeRegion ← bound d "CHANGE_REGION" ["region"];
  keyframesSelector ← when (bool_decide (is_Some (keyframes state))) (
    onChangeVideoTime ← bound d "CHANGE_VIDEO_TIME" ["newTime"];
    onDeleteKeyframe ← bound d "DELETE_KEYFRAME" ["time"];
    onChangeCurrentTime ← bound d "CHANGE_VIDEO_TIME" ["newTime"];
    mret (Element "KeyframesSelector" [
      ("onChangeVideoTime", onChangeVideoTime);
      ("onDeleteKeyframe", onDeleteKeyframe);
      ("onChangeCurrentTime", onChangeCurrentTime);
      ("currentTime", num_node (currentVideoTime state));
      ("duration", opt_node num_node (videoDuration state));
      ("keyframes", opt_node Keyframes (keyframes state))]));
  onRestoreHistory ← bound d "RESTORE_HISTORY" [];
  mret [
    debug_box;
    match taskDescription state with
    | Some t =>
        if truthy (VStr t)
        then Some (Element "TaskDescription" [("description", str_node t)])
        else None
    | None => None
    end;
    tags;
    selector;
    Some (Element "RegionSelector" [
      ("regions", regions_or_null activeImage);
      ("onSelectRegion", onSelectRegion);
      ("onDeleteRegion", onDeleteRegion);
      ("onChangeRegion", onChangeRegion)]);
    keyframesSelector;
    Some (Element "HistorySidebarBox" [
      ("history", Data (history state));
      ("onRestoreHistory", onRestoreHistory)])
  ].

(** The element of the first [return] (lines 169-282). *)
Definition workspace_element (activeImage : option Image) (canvas : node) : M node :=
  timeline ← when is_video (
    onChangeCurrentTime ← bound d "CHANGE_VIDEO_TIME" ["newTime"];
    mret (Element "KeyframeTimeline" [
      ("currentTime", num_node (currentVideoTime state));
      ("duration", opt_node num_node (videoDuration state));
      ("onChangeCurrentTime", onChangeCurrentTime);
      ("keyframes", opt_node Keyframes (keyframes state))]));
  rightSidebarItems ← right_sidebar_items activeImage;
  mret (Element "Workspace" [
    ("allowFullscreen", bool_node true);
    ("iconDictionary", Imported "iconDictionary");
    ("headerLeftSide", Nodes (filter_Boolean [timeline]));
    ("headerItems", Nodes (filter_Boolean [
       Some (named "Prev");
       Some (named "Next");
       if negb is_video then None
       else if negb (videoPlaying state) then Some (named "Play")
       else Some (named "Pause");
       Some (named "Settings");
       Some (named "Fullscreen");
       Some (named "Save")]));
    ("onClickHeaderItem", Handler ConsoleLog);
    ("onClickIconSidebarItem", Handler ConsoleLog);
    ("iconSidebarItems", Nodes [
       tool "select" "Select" true;
       tool "pan" "Drag/Pan" false;
       tool "zoom" "Zoom In/Out" false;
       tool "show-tags" "Show / Hide Tags" false;
       tool "create-point" "Add Point" false;
       tool "create-box" "Add Bounding Box" false;
       tool "create-polygon" "Add Polygon" false;
       tool "create-expanding-line" "Add Expanding Line" false;
       tool "show-mask" "Show / Hide Mask" false]);
    ("rightSidebarItems", Nodes (filter_Boolean rightSidebarItems));
    ("children", canvas)]).

(** [classes.k] *)
Definition class (k : string) : node := opt_node str_node (classes env !! k).

(** [!nextImage || (nextImage.regions && nextImage.regions.length > 0)]
    (line 314). *)
Definition nextVideoFrameHasRegions (nextImage : option Image) : node :=
  match nextImage with
  | None => bool_node true
  | Some img =>
      match regions img with
      | Some rs => bool_node (bool_decide (0 < length rs)%nat)
      | None => Data VUndefined
      end
  end.

(** The [title] prop of the header (lines 318-324). *)
Definition header_title (activeImage : option Image) : node :=
  if is_image
  then match activeImage with
       | Some img => opt_node str_node (name img)
       | None => str_node "No Image Selected"
       end
  else match videoName state with
       | Some n => if truthy (VStr n) then str_node n else str_node EmptyString
       | None => str_node EmptyString
       end.

(** [window.localStorage.$ANNOTATE_DEBUG_MODE && state] (line 350). *)
Definition sidebar_debug : node :=
  if truthy debug_flag then StateRef state else Data debug_flag.

(** [<Header ... />] (lines 306-329). *)
Definition header_element (activeImage nextImage : option Image) : M node :=
  onHeaderButtonClick ← bound d "HEADER_BUTTON_CLICKED" ["buttonName"];
  onChangeCurrentTime ← bound d "CHANGE_VIDEO_TIME" ["newTime"];
  mret (Element "Header" [
    ("onHeaderButtonClick", onHeaderButtonClick);
    ("videoMode", bool_node is_video);
    ("alwaysShowNextButton", bool_node (alwaysShowNextButton props));
    ("alwaysShowPrevButton", bool_node (alwaysShowPrevButton props));
    ("inFullScreen", bool_node (fullScreen state));
    ("isAVideoFrame", match activeImage with
                      | Some img => bool_node (bool_decide (is_Some (frameTime img)))
                      | None => Data VNull
                      end);
    ("nextVideoFrameHasRegions", nextVideoFrameHasRegions nextImage);
    ("videoDuration", opt_node num_node (videoDuration state));
    ("multipleImages", match images state with
                       | Some imgs => bool_node (bool_decide (1 < length imgs)%nat)
                       | None => Data VUndefined
                       end);
    ("title", header_title activeImage);
    ("onChangeCurrentTime", onChangeCurrentTime);
    ("videoPlaying", bool_node (videoPlaying state));
    ("currentVideoTime", num_node (currentVideoTime state));
    ("keyframes", opt_node Keyframes (keyframes state))]).

(** [<Sidebar ... />] (lines 349-370). *)
Definition sidebar_element (activeImage : option Image) : M node :=
  onChangeImage ← bound d "CHANGE_IMAGE" ["delta"];
  onSelectRegion ← bound d "SELECT_REGION" ["region"];
  onDeleteRegion ← bound d "DELETE_REGION" ["region"];
  onSelectImage ← bound d "SELECT_IMAGE" ["image"];
  onChangeRegion ← bound d "CHANGE_REGION" ["region"];
  onRestoreHistory ← bound d "RESTORE_HISTORY" [];
  onChangeVideoTime ← bound d "CHANGE_VIDEO_TIME" ["newTime"];
  onDeleteKeyframe ← bound d "DELETE_KEYFRAME" ["time"];
  mret (Element "Sidebar" [
    ("debug", sidebar_debug);
    ("taskDescription", opt_node str_node (taskDescription state));
    ("images", opt_node Images (images state));
    ("regions", regions_or_null activeImage);
    ("history", Data (history state));
    ("currentImage", opt_node ImageEntry activeImage);
    ("labelImages", bool_node (labelImages state));
    ("imageClsList", Data (field state "imageClsList"));
    ("imageTagList", Data (field state "imageTagList"));
    ("keyframes", opt_node Keyframes (keyframes state));
    ("currentVideoTime", num_node (currentVideoTime state));
    ("onChangeImage", onChangeImage);
    ("onSelectRegion", onSelectRegion);
    ("onDeleteRegion", onDeleteRegion);
    ("onSelectImage", onSelectImage);
    ("onChangeRegion", onChangeRegion);
    ("onRestoreHistory", onRestoreHistory);
    ("onChangeVideoTime", onChangeVideoTime);
    ("onDeleteKeyframe", onDeleteKeyframe);
    ("onShortcutActionDispatched", Handler (DispatchFn d))]).

(** The element of the second [return] (lines 284-384). *)
Definition fullscreen_element (activeImage nextImage : option Image) (canvas : node)
    : M node :=
  header ← header_element activeImage nextImage;
  onClickTool ← bound d "SELECT_TOOL" ["selectedTool"];
  sidebar ← sidebar_element activeImage;
  mret (Element "Fullscreen" [
    ("enabled", bool_node (fullScreen state));
    ("onChange", Handler OnFullscreenChange);
    ("children", Element "HotkeyDiv" [
       ("tabIndex", num_node (-1));
       ("divRef", Imported "innerContainerRef");
       ("onMouseDown", Handler RefocusOnMouseEvent);
       ("onMouseOver", Handler RefocusOnMouseEvent);
       ("allowChanges", bool_node true);
       ("handlers", Data (hotkeyHandlers env));
       ("className", str_node (classnames [
          classes env !! "container";
          if fullScreen state then Some "Fullscreen" else None]));
       ("children", Nodes [
          Element "div" [
            ("className", class "headerContainer");
            ("children", header)];
          Element "div" [
            ("className", class "workspace");
            ("children", Nodes [
               Element "div" [
                 ("className", class "iconToolsContainer");
                 ("children", Element "IconTools" [
                    ("enabledTools", Data (field state "enabledTools"));
                    ("showTags", bool_node (showTags state));
                    ("showMask", bool_node (showMask state));
                    ("selectedTool", str_node (selectedTool state));
                    ("onClickTool", onClickTool)])];
               Element "div" [
                 ("className", class "imageCanvasContainer");
                 ("children",
                    if is_image
                       && negb (truthy (opt_node_value (selectedImage state)))
                    then Element "div" [
                           ("className", class "noImageSelected");
                           ("children", str_node "No Image Selected")]
                    else Element "div" [
                           ("style", Data (VObj (<["width" := VStr "100%"]>
                                                   {["height" := VStr "100%"]})));
                           ("children", canvas)])];
               Element "div" [
                 ("className", class "sidebarContainer");
                 ("children", sidebar)]])];
          Element "SettingsDialog" [
            ("open", bool_node (settingsOpen state));
            ("onClose", Handler OnSettingsClose)]])])]).

(** The body of [MainLayout]. *)
Definition MainLayout_body : M unit :=
  let '(currentImageIndex, activeImage) := getActiveImage state in
  nextImage ← eval (nextImage_of currentImageIndex);
  let impliedVideoRegions := useImpliedVideoRegions state in
  canvas ← canvas_element activeImage impliedVideoRegions;
  workspace ← workspace_element activeImage canvas;
  return_ workspace;;
  fullscreen ← fullscreen_element activeImage nextImage canvas;
  return_ fullscreen.

(** The body cut after its first [return] statement. *)
Definition first_return_body : M unit :=
  let '(currentImageIndex, activeImage) := getActiveImage state in
  nextImage ← eval (nextImage_of currentImageIndex);
  let impliedVideoRegions := useImpliedVideoRegions state in
  canvas ← canvas_element activeImage impliedVideoRegions;
  workspace ← workspace_element activeImage canvas;
  return_ workspace.

(** One render of the component. *)
Definition MainLayout (inst : instance) : result node * instance :=
  call_component MainLayout_body inst.

End Render.

End Layout.

Export Layout.

(** ** Properties of pieces of the body and of element trees *)

Module Shapes.

(** [m] ends normally on every instance, with a value that satisfies [P]. *)
Definition always {A : Type} (P : A -> Prop) (m : M A) : Prop :=
  forall inst, exists a inst', m inst = (Normal a, inst') /\ P a.

(** A prop holding a callable made by [action]. *)
Definition is_bound (n : node) : Prop := exists f, n = Handler (BoundAction f).

(** The function values the first [return] passes. *)
Definition passed (h : callback) : Prop :=
  match h with
  | BoundAction _ | ConsoleLog | OnRegionClassAdded => True
  | _ => False
  end.

(** A tree that only holds components of the first [return] and only
    the function values that [return] passes. *)
Definition tidy (n : node) : Prop :=
  Forall (fun c => c ∈ first_return_components) (components n)
  /\ Forall passed (handlers n).

(** A tree without elements and without function values. *)
Definition leaf (n : node) : Prop := components n = [] /\ handlers n = [].

End Shapes.

Export Shapes.

(** ** Sample inputs *)

Module Samples.

Definition region (id : string) : Region :=
  {| region_id := id; region_interpolable := true; region_geometry := [] |}.

Definition image (s : string) (rs : option (list Region)) : Image :=
  {| src := s; name := Some s; regions := rs; frameTime := None; realSize := None |}.

(** Image mode, images [a] (one region) and [b] (no [regions] field). *)
Definition image_state (selected : option string) : MainLayoutState :=
  {| annotationType := ImageMode;
     images := Some [image "a" (Some [region "r0"]); image "b" None];
     selectedImage := selected;
     selectedImageFrameTime := None;
     videoSrc := None;
     videoName := None;
     videoDuration := None;
     currentVideoTime := 0;
     videoPlaying := false;
     keyframes := None;
     history := VNull;
     lastAction := VObj {["type" := VStr "MOUSE_MOVE"]};
     selectedTool := "select";
     taskDescription := None;
     labelImages := false;
     showTags := true;
     showMask := true;
     fullScreen := false;
     settingsOpen := false;
     other := ∅ |}.

(** Video mode, keyframes at 0 and 1000. *)
Definition video_state (time : Z) : MainLayoutState :=
  {| annotationType := VideoMode;
     images := None;
     selectedImage := None;
     selectedImageFrameTime := None;
     videoSrc := Some "clip.mp4";
     videoName := Some "clip";
     videoDuration := Some 5000;
     currentVideoTime := time;
     videoPlaying := false;
     keyframes := Some (<[0 := [region "r0"]]> {[1000 := [region "r1"]]});
     history := VNull;
     lastAction := VObj {["type" := VStr "MOUSE_MOVE"]};
     selectedTool := "select";
     taskDescription := None;
     labelImages := false;
     showTags := true;
     showMask := true;
     fullScreen := false;
     settingsOpen := false;
     other := ∅ |}.

(** The environment, with the debug flag as persisted (if at all). *)
Definition environment (flag : option string) : Env :=
  {| settings := [];
     classes := ∅;
     hotkeyHandlers := VNull;
     localStorage := match flag with
                     | Some s => {["$ANNOTATE_DEBUG_MODE" := s]}
                     | None => ∅
                     end |}.

Definition some_props : Props :=
  {| dispatch := 7%nat;
     alwaysShowNextButton := false;
     alwaysShowPrevButton := false;
     RegionEditLabel := VUndefined |}.

(** A page: the surface 1 holds an input 2 and a shape 3 that cannot
    take the focus; a button 4 lies outside the surface. *)
Definition page : dom_node :=
  DomNode 0%nat false [
    DomNode 1%nat true [DomNode 2%nat true []; DomNode 3%nat false []];
    DomNode 4%nat true []].

End Samples.

(** ** The colour table ([colors], [colorInts], [reverseParseColor],
    [setColors]) *)

Module Colors.

(** A string is a sequence of code units below 256. *)

(** [s.replace] of the first ["#"] by the empty string. *)
Fixpoint remove_first_hash (s : string) : string :=
  match s with
  | EmptyString => EmptyString
  | String c r => if Ascii.eqb c "#" then r else String c (remove_first_hash r)
  end.

(** [s.substr(start, length)] *)
Definition substr (start length : nat) (s : string) : string :=
  String.substring start length s.

(** The white space [parseInt] skips, among the code units below 256:
    TAB, LF, VT, FF, CR, space and the no-break space. *)
Definition is_white_space (c : ascii) : bool :=
  let n := nat_of_ascii c in
  (Nat.eqb n 9 || Nat.eqb n 10 || Nat.eqb n 11 || Nat.eqb n 12 || Nat.eqb n 13
   || Nat.eqb n 32 || Nat.eqb n 160)%bool.

Fixpoint skip_white_space (s : string) : string :=
  match s with
  | String c r => if is_white_space c then skip_white_space r else s
  | EmptyString => s
  end.

(** The value of a digit in radix 16. *)
Definition hex_digit (c : ascii) : option Z :=
  let n := Z.of_nat (nat_of_ascii c) in
  if (48 <=? n) && (n <=? 57) then Some (n - 48)
  else if (97 <=? n) && (n <=? 102) then Some (n - 87)
  else if (65 <=? n) && (n <=? 70) then Some (n - 55)
  else None.

(** The number the longest prefix of digits denotes, after the digits
    read so far ([acc], [None] when none was read). *)
Fixpoint read_digits (acc : option Z) (s : string) : option Z :=
  match s with
  | EmptyString => acc
  | String c r =>
      match hex_digit c with
      | Some d => read_digits (Some (default 0 acc * 16 + d)) r
      | None => acc
      end
  end.

(** [parseInt(s, 16)]; [None] is [NaN]. White space is skipped, then a
    sign is read, then a prefix [0x] or [0X] is dropped, then the longest
    prefix of digits is read. *)
Definition parseInt16 (s : string) : option Z :=
  let s1 := skip_white_space s in
  let '(sign, s2) :=
    match s1 with
    | String "-" r => (-1, r)
    | String "+" r => (1, r)
    | _ => (1, s1)
    end in
  let s3 :=
    match s2 with
    | String "0" (String "x" r) => r
    | String "0" (String "X" r) => r
    | _ => s2
    end in
  (fun n => sign * n) <$> read_digits None s3.

(** [reverseParseColor(rrggbb)] *)
Definition reverseParseColor (rrggbb : string) : option Z :=
  let rrggbb := remove_first_hash rrggbb in
  let bbggrr := substr 4 2 rrggbb +:+ substr 2 2 rrggbb +:+ substr 0 2 rrggbb in
  parseInt16 bbggrr.

(** [const transparency = 0x88000000] *)
Definition transparency : Z := 0x88000000.

(** The conversions of a number by the bit operators: [NaN] counts as 0,
    [|] works on signed 32-bit integers and [>>> 0] yields the unsigned
    one. *)
Definition ToInt32 (n : option Z) : Z :=
  (default 0 n + 2 ^ 31) mod 2 ^ 32 - 2 ^ 31.

Definition ToUint32 (n : Z) : Z := n mod 2 ^ 32.

(** [(reverseParseColor(c) | transparency) >>> 0] *)
Definition colorInt (c : string) : Z :=
  ToUint32 (Z.lor (ToInt32 (reverseParseColor c)) (ToInt32 (Some transparency))).

(** The state of the module: the variable [colors] and the constant
    [colorInts]. *)
Record table : Type := Table {
  colors : list string;
  colorInts : list Z;
}.

(** The module once loaded, for the list [colors] starts with (twelve
    colours of the palette of material-ui). *)
Definition load (initial : list string) : table :=
  {| colors := initial; colorInts := map colorInt initial |}.

(** [setColors(values)]: [colors = values.concat(colors)] *)
Definition setColors (values : list string) (t : table) : table :=
  {| colors := values ++ colors t; colorInts := colorInts t |}.

(** A string of exactly six digits of radix 16, with their values. *)
Definition six_digits (s : string) (d1 d2 d3 d4 d5 d6 : Z) : Prop :=
  exists c1 c2 c3 c4 c5 c6,
    s = String c1 (String c2 (String c3 (String c4 (String c5 (String c6 EmptyString)))))
    /\ hex_digit c1 = Some d1 /\ hex_digit c2 = Some d2 /\ hex_digit c3 = Some d3
    /\ hex_digit c4 = Some d4 /\ hex_digit c5 = Some d5 /\ hex_digit c6 = Some d6.

End Colors.

(** ** Instances and renders over time *)

Module Renders.

(** A function object made for a plain kind and plain names. *)
Definition plain_closure (c : closure) : Prop :=
  plain_kind (fn_type c) /\ Forall plain_name (fn_params c).

(** An instance whose function objects are all plain, each memoized
    under its own key, with as many function objects as memoized keys. *)
Definition sound (inst : instance) : Prop :=
  wf inst
  /\ length (fns inst) = size (memoizedActionFns inst)
  /\ Forall plain_closure (fns inst).

(** The bindings the canvas and the first [return] make: each kind with
    its parameter names (lines 137-162, 178, 248-276). *)
Definition first_return_bindings : list (string * list string) :=
  [("MOUSE_MOVE", []);
   ("MOUSE_DOWN", []);
   ("MOUSE_UP", []);
   ("CHANGE_REGION", ["region"]);
   ("OPEN_REGION_EDITOR", ["region"]);
   ("CLOSE_REGION_EDITOR", ["region"]);
   ("DELETE_REGION", ["region"]);
   ("BEGIN_BOX_TRANSFORM", ["box"; "directions"]);
   ("BEGIN_MOVE_POLYGON_POINT", ["polygon"; "pointIndex"]);
   ("ADD_POLYGON_POINT", ["polygon"; "point"; "pointIndex"]);
   ("SELECT_REGION", ["region"]);
   ("BEGIN_MOVE_POINT", ["point"]);
   ("IMAGE_LOADED", ["image"]);
   ("IMAGE_OR_VIDEO_LOADED", ["metadata"]);
   ("CHANGE_VIDEO_TIME", ["newTime"]);
   ("CHANGE_VIDEO_PLAYING", ["isPlaying"]);
   ("CHANGE_IMAGE", ["delta"]);
   ("DELETE_KEYFRAME", ["time"]);
   ("RESTORE_HISTORY", [])].

(** The key of a binding. *)
Definition key_of (b : string * list string) : string := fnKey b.1 b.2.

(** A call of [action] that makes one of these bindings. *)
Definition first_return_call (c : sink * string * list string) : Prop :=
  (c.1.2, c.2) ∈ first_return_bindings.

(** A piece of the body that does not return, whose only effect is to
    make some of these bindings, and which, run again on an instance
    where they are memoized, gives the same completion and changes
    nothing. [P] holds of a normal result on every such instance. *)
Definition client {A : Type} (P : A -> instance -> Prop) (m : M A) : Prop :=
  forall inst, exists r calls,
    m inst = (r, run_actions calls inst)
    /\ Forall first_return_call calls
    /\ (forall v, r <> Return v)
    /\ (forall i2,
          memoizedActionFns (run_actions calls inst) ⊆ memoizedActionFns i2 ->
          m i2 = (r, i2))
    /\ (forall a, r = Normal a ->
          forall i2,
            memoizedActionFns (run_actions calls inst) ⊆ memoizedActionFns i2 ->
            P a i2).

(** A prop value made by [action] for [type] and [params], memoized in
    [i]. *)
Definition bound_to (type : string) (params : list string) (n : node) (i : instance)
    : Prop :=
  exists f, n = Handler (BoundAction f)
            /\ memoizedActionFns i !! fnKey type params = Some f.

(** The component of an element. *)
Definition component_of (n : node) : string :=
  match n with
  | Element c _ => c
  | _ => EmptyString
  end.

(** The elements of a tree, the root first. *)
Fixpoint elements (n : node) : list node :=
  match n with
  | Element c ps => n :: flat_map (fun kp => elements kp.2) ps
  | Nodes l => flat_map elements l
  | _ => []
  end.

(** Which prop of which component is bound to which kind and names, as
    the JSX of the canvas and of the first [return] has it. *)
Definition handler_table : list (string * string * (string * list string)) :=
  [("ImageCanvas", "onMouseMove", ("MOUSE_MOVE", []));
   ("ImageCanvas", "onMouseDown", ("MOUSE_DOWN", []));
   ("ImageCanvas", "onMouseUp", ("MOUSE_UP", []));
   ("ImageCanvas", "onChangeRegion", ("CHANGE_REGION", ["region"]));
   ("ImageCanvas", "onBeginRegionEdit", ("OPEN_REGION_EDITOR", ["region"]));
   ("ImageCanvas", "onCloseRegionEdit", ("CLOSE_REGION_EDITOR", ["region"]));
   ("ImageCanvas", "onDeleteRegion", ("DELETE_REGION", ["region"]));
   ("ImageCanvas", "onBeginBoxTransform", ("BEGIN_BOX_TRANSFORM", ["box"; "directions"]));
   ("ImageCanvas", "onBeginMovePolygonPoint",
      ("BEGIN_MOVE_POLYGON_POINT", ["polygon"; "pointIndex"]));
   ("ImageCanvas", "onAddPolygonPoint",
      ("ADD_POLYGON_POINT", ["polygon"; "point"; "pointIndex"]));
   ("ImageCanvas", "onSelectRegion", ("SELECT_REGION", ["region"]));
   ("ImageCanvas", "onBeginMovePoint", ("BEGIN_MOVE_POINT", ["point"]));
   ("ImageCanvas", "onImageLoaded", ("IMAGE_LOADED", ["image"]));
   ("ImageCanvas", "onImageOrVideoLoaded", ("IMAGE_OR_VIDEO_LOADED", ["metadata"]));
   ("ImageCanvas", "onChangeVideoTime", ("CHANGE_VIDEO_TIME", ["newTime"]));
   ("ImageCanvas", "onChangeVideoPlaying", ("CHANGE_VIDEO_PLAYING", ["isPlaying"]));
   ("KeyframeTimeline", "onChangeCurrentTime", ("CHANGE_VIDEO_TIME", ["newTime"]));
   ("TagsSidebarBox", "onChangeImage", ("CHANGE_IMAGE", ["delta"]));
   ("ImageSelector", "onSelect", ("SELECT_REGION", ["region"]));
   ("RegionSelector", "onSelectRegion", ("SELECT_REGION", ["region"]));
   ("RegionSelector", "onDeleteRegion", ("DELETE_REGION", ["region"]));
   ("RegionSelector", "onChangeRegion", ("CHANGE_REGION", ["region"]));
   ("KeyframesSelector", "onChangeVideoTime", ("CHANGE_VIDEO_TIME", ["newTime"]));
   ("KeyframesSelector", "onDeleteKeyframe", ("DELETE_KEYFRAME", ["time"]));
   ("KeyframesSelector", "onChangeCurrentTime", ("CHANGE_VIDEO_TIME", ["newTime"]));
   ("HistorySidebarBox", "onRestoreHistory", ("RESTORE_HISTORY", []))].

(** The element [e] has the prop of [row] bound as [row] says, when it is
    of the component of [row]. *)
Definition wired_row (e : node) (i : instance)
    (row : string * string * (string * list string)) : Prop :=
  component_of e = row.1.1 ->
  exists f,
    prop_of row.1.2 e = Some (Handler (BoundAction f))
    /\ memoizedActionFns i !! key_of row.2 = Some f.

(** Every element of the tree is bound as the table says. *)
Definition wired (n : node) (i : instance) : Prop :=
  Forall (fun e => Forall (wired_row e i) handler_table) (elements n).

(** The props of the canvas that depend on the mode and on the selected
    tool (lines 124-136). *)
Definition canvas_routing (st : MainLayoutState) (canvas : node) : Prop :=
  prop_of "imageSrc" canvas
  = Some (match annotationType st with
          | ImageMode => opt_node str_node (selectedImage st)
          | VideoMode => Data VNull
          end)
  /\ prop_of "videoSrc" canvas
     = Some (match annotationType st with
             | VideoMode => opt_node str_node (videoSrc st)
             | ImageMode => Data VNull
             end)
  /\ prop_of "videoTime" canvas
     = Some (match annotationType st with
             | ImageMode => opt_node num_node (selectedImageFrameTime st)
             | VideoMode => num_node (currentVideoTime st)
             end)
  /\ prop_of "createWithPrimary" canvas
     = Some (bool_node (includes "create" (selectedTool st)))
  /\ prop_of "dragWithPrimary" canvas
     = Some (bool_node (String.eqb (selectedTool st) "pan"))
  /\ prop_of "zoomWithPrimary" canvas
     = Some (bool_node (String.eqb (selectedTool st) "zoom")).

(** The canvas and the element of the first [return], built one after
    the other. *)
Definition first_return_element (env : Env) (props : Props) (st : MainLayoutState)
    : M node :=
  canvas ← canvas_element env props st (getActiveImage st).2 (useImpliedVideoRegions st);
  workspace_element env props st (getActiveImage st).2 canvas.

(** The value of a call whose body ended with [c], the body returning
    what it built. *)
Definition finish (c : completion node * instance) : result node * instance :=
  match c with
  | (Normal ws, i) => (Ok ws, i)
  | (Return ws, i) => (Ok ws, i)
  | (Abrupt e, i) => (Throw e, i)
  end.

(** Renders one after the other, each with its environment, props and
    state. *)
Definition renders (l : list (Env * Props * MainLayoutState)) (inst : instance)
    : instance :=
  foldl (fun i r => (MainLayout r.1.1 r.1.2 r.2 i).2) inst l.

(** The state [st] with another selected tool. *)
Definition with_tool (tool : string) (st : MainLayoutState) : MainLayoutState :=
  {| annotationType := annotationType st;
     images := images st;
     selectedImage := selectedImage st;
     selectedImageFrameTime := selectedImageFrameTime st;
     videoSrc := videoSrc st;
     videoName := videoName st;
     videoDuration := videoDuration st;
     currentVideoTime := currentVideoTime st;
     videoPlaying := videoPlaying st;
     keyframes := keyframes st;
     history := history st;
     lastAction := lastAction st;
     selectedTool := tool;
     taskDescription := taskDescription st;
     labelImages := labelImages st;
     showTags := showTags st;
     showMask := showMask st;
     fullScreen := fullScreen st;
     settingsOpen := settingsOpen st;
     other := other st |}.

End Renders.

Export Renders.

(** * Proofs *)

(** ** Facts about strings and cache keys *)

Section KeyFacts.

Lemma has_char_app c s t :
  has_char c (s +:+ t) = has_char c s || has_char c t.
Proof.
  induction s as [|a s IH]; simpl; [done|].
  destruct (Ascii.eqb c a); [done|apply IH].
Qed.

Lemma append_split_unique c s1 s2 r1 r2 :
  has_char c s1 = false -> has_char c s2 = false ->
  s1 +:+ String c r1 = s2 +:+ String c r2 -> s1 = s2 /\ r1 = r2.
Proof.
  revert s2. induction s1 as [|a s1 IH]; intros [|b s2] H1 H2 E; simpl in *.
  - by inversion E.
  - inversion E; subst. by rewrite Ascii.eqb_refl in H2.
  - inversion E; subst. by rewrite Ascii.eqb_refl in H1.
  - inversion E; subst.
    destruct (Ascii.eqb c b); [done|].
    destruct (IH s2 H1 H2) as [-> ->]; done.
Qed.

Lemma append_length s t : String.length (s +:+ t) = (String.length s + String.length t)%nat.
Proof. induction s; simpl; [done|by f_equal]. Qed.

Lemma append_cancel_r s1 s2 t : s1 +:+ t = s2 +:+ t -> s1 = s2.
Proof.
  revert s2. induction s1 as [|a s1 IH]; intros [|b s2] E; simpl in *.
  - done.
  - apply (f_equal String.length) in E. simpl in E. rewrite !append_length in E. simpl in E. lia.
  - apply (f_equal String.length) in E. simpl in E. rewrite !append_length in E. simpl in E. lia.
  - inversion E; subst. f_equal. by apply IH.
Qed.

Lemma concat_cons2 sep x y l :
  String.concat sep (x :: y :: l) = x +:+ sep +:+ String.concat sep (y :: l).
Proof. done. Qed.

Lemma concat_plain_inj (p1 p2 : list string) :
  Forall plain_name p1 -> Forall plain_name p2 ->
  String.concat "," p1 = String.concat "," p2 -> p1 = p2.
Proof.
  revert p2. induction p1 as [|x xs IH]; intros p2 F1 F2 E.
  - destruct p2 as [|y [|y' ys]]; [done| |].
    + simpl in E. apply Forall_cons in F2 as [[Hy _] _]. congruence.
    + rewrite concat_cons2 in E. apply Forall_cons in F2 as [[Hy _] _].
      destruct y; [done|discriminate].
  - apply Forall_cons in F1 as [[Hx Hxc] F1].
    destruct p2 as [|y ys].
    + destruct xs as [|x' xs]; simpl in E; [congruence|].
      destruct x; [done|discriminate].
    + apply Forall_cons in F2 as [[Hy Hyc] F2].
      destruct xs as [|x' xs], ys as [|y' ys].
      * simpl in E. by subst.
      * rewrite concat_cons2 in E. change (String.concat "," [x]) with x in E. subst x.
        rewrite has_char_app in Hxc. simpl in Hxc.
        by rewrite orb_true_r in Hxc.
      * rewrite concat_cons2 in E. change (String.concat "," [y]) with y in E. subst y.
        rewrite has_char_app in Hyc. simpl in Hyc.
        by rewrite orb_true_r in Hyc.
      * rewrite !concat_cons2 in E.
        destruct (append_split_unique _ _ _ _ _ Hxc Hyc E) as [-> E'].
        f_equal. by apply IH.
Qed.

Lemma fnKey_plain_inj t1 p1 t2 p2 :
  plain_kind t1 -> plain_kind t2 ->
  Forall plain_name p1 -> Forall plain_name p2 ->
  fnKey t1 p1 = fnKey t2 p2 -> t1 = t2 /\ p1 = p2.
Proof.
  unfold fnKey. intros K1 K2 F1 F2 E.
  destruct (append_split_unique _ _ _ _ _ K1 K2 E) as [-> E'].
  split; [done|].
  apply append_cancel_r in E'. by apply concat_plain_inj.
Qed.

End KeyFacts.

(** ** The memo table *)

Section MemoTable.

Lemma action_memo_hit d type params inst f :
  memoizedActionFns inst !! fnKey type params = Some f ->
  action d type params inst = (f, inst).
Proof. intros H. unfold action. by rewrite H. Qed.

Lemma action_memo_result d type params inst :
  memoizedActionFns (action d type params inst).2 !! fnKey type params
  = Some (action d type params inst).1.
Proof.
  unfold action. destruct (memoizedActionFns inst !! fnKey type params) eqn:E; simpl.
  - done.
  - apply lookup_insert_eq.
Qed.

Lemma action_memo_keeps d type params inst k f :
  memoizedActionFns inst !! k = Some f ->
  memoizedActionFns (action d type params inst).2 !! k = Some f.
Proof.
  intros H. unfold action.
  destruct (memoizedActionFns inst !! fnKey type params) eqn:E; simpl; [done|].
  rewrite lookup_insert_ne; [done|]. intros Heq. congruence.
Qed.

Lemma run_actions_memo_keeps calls inst k f :
  memoizedActionFns inst !! k = Some f ->
  memoizedActionFns (run_actions calls inst) !! k = Some f.
Proof.
  revert inst. induction calls as [|c calls IH]; intros inst H; simpl; [done|].
  apply IH. by apply action_memo_keeps.
Qed.

Lemma action_wf d type params inst : wf inst -> wf (action d type params inst).2.
Proof.
  intros W k f. unfold action.
  destruct (memoizedActionFns inst !! fnKey type params) eqn:E; simpl.
  - apply W.
  - intros H. apply lookup_insert_Some in H as [[<- <-]|[Hne H]].
    + exists (Closure type params d). split; [|done].
      rewrite lookup_app_r; [|done]. by rewrite Nat.sub_diag.
    + destruct (W k f H) as (c & Hc & Hk). exists c. split; [|done].
      by apply lookup_app_l_Some.
Qed.

Lemma mount_wf : wf mount.
Proof. intros k f H. simpl in H. by rewrite lookup_empty in H. Qed.

Lemma reachable_wf inst : reachable inst -> wf inst.
Proof. induction 1; [apply mount_wf|by apply action_wf]. Qed.

Lemma run_actions_reachable calls inst :
  reachable inst -> reachable (run_actions calls inst).
Proof.
  revert inst. induction calls as [|[[d t] p] calls IH]; intros inst R; simpl; [done|].
  apply IH. by constructor.
Qed.

(** Two memoized keys that differ hold different function objects. *)
Lemma wf_memo_inj inst k1 k2 f :
  wf inst ->
  memoizedActionFns inst !! k1 = Some f -> memoizedActionFns inst !! k2 = Some f ->
  k1 = k2.
Proof.
  intros W H1 H2.
  destruct (W _ _ H1) as (c1 & Hc1 & <-), (W _ _ H2) as (c2 & Hc2 & <-).
  congruence.
Qed.

Lemma action_distinct_keys d inst k1 f1 type params :
  wf inst -> memoizedActionFns inst !! k1 = Some f1 ->
  fnKey type params <> k1 ->
  (action d type params inst).1 <> f1.
Proof.
  intros W H1 Hne. unfold action.
  destruct (memoizedActionFns inst !! fnKey type params) as [f2|] eqn:E; simpl.
  - intros ->. apply Hne. by eapply wf_memo_inj.
  - destruct (W _ _ H1) as (c & Hc & _). apply lookup_lt_Some in Hc. lia.
Qed.

End MemoTable.

(** ** The body of a bound callable *)

Section FnBody.

Lemma reduce_params_seq params : forall i args acc,
  reduce_params params i args acc
  = foldl (fun o kv => assign o kv.1 kv.2) acc
          (zip params (map (arg_at args) (seq i (length params)))).
Proof.
  induction params as [|p ps IH]; intros i args acc; simpl; [done|].
  by rewrite IH.
Qed.

Lemma args_by_index (args : list value) :
  map (arg_at args) (seq 0 (length args)) = args.
Proof.
  apply list_eq. intros j. rewrite list_lookup_fmap.
  destruct (decide (j < length args)%nat) as [Hlt|Hge].
  - rewrite lookup_seq_lt; [|done]. simpl. unfold arg_at.
    destruct (lookup_lt_is_Some_2 args j Hlt) as [a Ha]. by rewrite Ha.
  - rewrite lookup_seq_ge; [|lia]. simpl. symmetry. apply lookup_ge_None. lia.
Qed.

Lemma foldl_define_union (l : list (string * value)) : forall acc base : gmap string value,
  foldl define_field acc l ∪ base = foldl define_field (acc ∪ base) l.
Proof.
  induction l as [|kv l IH]; intros acc base; simpl; [done|].
  rewrite IH. unfold define_field. by rewrite insert_union_l.
Qed.

(** A name other than [__proto__] is assigned as an own property. *)
Lemma assign_plain acc p v :
  p <> "__proto__" ->
  assign acc p v = {| own := <[p := v]> (own acc); prototype := prototype acc |}.
Proof.
  intros Hp. unfold assign.
  destruct (String.eqb_spec p "__proto__") as [->|_]; [done|reflexivity].
Qed.

(** An assignment changes no own property of another name. *)
Lemma assign_lookup_ne acc p q v :
  p <> q -> own (assign acc q v) !! p = own acc !! p.
Proof.
  intros Hne. unfold assign.
  destruct (String.eqb q "__proto__" && reaches_setter acc).
  - by destruct v.
  - simpl. by rewrite lookup_insert_ne.
Qed.

(** An assignment removes no own property. *)
Lemma assign_dom acc q v : dom (own acc) ⊆ dom (own (assign acc q v)).
Proof.
  unfold assign. destruct (String.eqb q "__proto__" && reaches_setter acc).
  - by destruct v.
  - simpl. rewrite dom_insert. set_solver.
Qed.

Lemma assign_dom_incl acc q v : dom (own (assign acc q v)) ⊆ {[q]} ∪ dom (own acc).
Proof.
  unfold assign. destruct (String.eqb q "__proto__" && reaches_setter acc).
  - destruct v; set_solver.
  - simpl. rewrite dom_insert. set_solver.
Qed.

Lemma reduce_params_notin params : forall i args acc p,
  p ∉ params -> own (reduce_params params i args acc) !! p = own acc !! p.
Proof.
  induction params as [|q ps IH]; intros i args acc p Hn; simpl; [done|].
  apply not_elem_of_cons in Hn as [Hne Hn].
  rewrite IH; [|done]. by apply assign_lookup_ne.
Qed.

(** Without the name [__proto__] the accumulator is the record of the
    names and arguments, defined from left to right. *)
Lemma reduce_params_plain params : forall i args acc,
  "__proto__" ∉ params ->
  own (reduce_params params i args acc)
  = foldl define_field (own acc) (zip params (map (arg_at args) (seq i (length params)))).
Proof.
  induction params as [|p ps IH]; intros i args acc Hn; simpl; [done|].
  apply not_elem_of_cons in Hn as [Hne Hn].
  rewrite IH; [|done]. rewrite assign_plain; [done|congruence].
Qed.

Lemma reduce_params_last params : forall i j args acc p,
  params !! j = Some p -> p <> "__proto__" -> p ∉ drop (S j) params ->
  own (reduce_params params i args acc) !! p = Some (arg_at args (i + j)).
Proof.
  induction params as [|q ps IH]; intros i j args acc p Hj Hp Hn; [done|].
  destruct j as [|j]; simpl in *.
  - inversion Hj; subst q. rewrite drop_0 in Hn.
    rewrite reduce_params_notin; [|done].
    rewrite assign_plain; [|done]. simpl.
    rewrite lookup_insert_eq. by rewrite Nat.add_0_r.
  - rewrite (IH (S i) j); [|done..]. do 2 f_equal. lia.
Qed.

Lemma reduce_params_missing params : forall i args acc p,
  (length args <= i)%nat -> p ∈ params -> p <> "__proto__" ->
  own (reduce_params params i args acc) !! p = Some VUndefined.
Proof.
  induction params as [|q ps IH]; intros i args acc p Hi Hin Hp; simpl.
  - by apply elem_of_nil in Hin.
  - destruct (decide (p ∈ ps)) as [Hps|Hps].
    + apply IH; [lia|done..].
    + apply elem_of_cons in Hin as [->|Hin]; [|done].
      rewrite reduce_params_notin; [|done].
      rewrite assign_plain; [|done]. simpl. rewrite lookup_insert_eq.
      unfold arg_at. by rewrite lookup_ge_None_2.
Qed.

Lemma reduce_params_missing_at params : forall i j args acc p,
  params !! j = Some p -> (length args <= i + j)%nat -> p <> "__proto__" ->
  own (reduce_params params i args acc) !! p = Some VUndefined.
Proof.
  induction params as [|q ps IH]; intros i j args acc p Hj Hlen Hp; [done|].
  destruct j as [|j].
  - apply reduce_params_missing; [lia| |done]. inversion Hj. apply elem_of_cons. by left.
  - simpl in *. apply (IH (S i) j); [done|lia|done].
Qed.

(** Past the supplied arguments, an own property [__proto__] can only
    come to hold [undefined]. *)
Lemma reduce_params_proto_missing params : forall i args acc,
  (length args <= i)%nat ->
  own acc !! "__proto__" = None \/ own acc !! "__proto__" = Some VUndefined ->
  own (reduce_params params i args acc) !! "__proto__" = None
  \/ own (reduce_params params i args acc) !! "__proto__" = Some VUndefined.
Proof.
  induction params as [|q ps IH]; intros i args acc Hi Hacc; simpl; [done|].
  apply IH; [lia|].
  replace (arg_at args i) with VUndefined
    by (unfold arg_at; by rewrite lookup_ge_None_2).
  unfold assign. destruct (String.eqb_spec q "__proto__") as [->|Hq]; simpl.
  - destruct (reaches_setter acc); simpl; [done|].
    right. apply lookup_insert_eq.
  - by rewrite lookup_insert_ne.
Qed.

Lemma reduce_params_proto_missing_at params : forall i j args acc,
  params !! j = Some "__proto__" -> (length args <= i + j)%nat ->
  own (reduce_params params i args acc) !! "__proto__" = None
  \/ own (reduce_params params i args acc) !! "__proto__" = Some VUndefined.
Proof.
  induction params as [|q ps IH]; intros i j args acc Hj Hlen; [done|].
  destruct j as [|j]; simpl in *.
  - inversion Hj; subst q. apply reduce_params_proto_missing; [lia|].
    replace (arg_at args i) with VUndefined
      by (unfold arg_at; rewrite lookup_ge_None_2; [done|lia]).
    unfold assign, reaches_setter. simpl.
    destruct (own acc !! "__proto__") as [v|] eqn:E; simpl.
    + right. apply lookup_insert_eq.
    + destruct (prototype acc) as [| |props]; simpl.
      * by left.
      * right. apply lookup_insert_eq.
      * destruct (bool_decide (props !! "__proto__" = None)); simpl;
          [by left|right; apply lookup_insert_eq].
  - apply (IH (S i) j); [done|lia].
Qed.

Lemma reduce_params_dom_incl params : forall i args acc,
  dom (own (reduce_params params i args acc)) ⊆ list_to_set params ∪ dom (own acc).
Proof.
  induction params as [|q ps IH]; intros i args acc; simpl; [set_solver|].
  pose proof (IH (S i) args (assign acc q (arg_at args i))) as H1.
  pose proof (assign_dom_incl acc q (arg_at args i)) as H2. set_solver.
Qed.

Lemma reduce_params_dom_keeps params : forall i args acc,
  dom (own acc) ⊆ dom (own (reduce_params params i args acc)).
Proof.
  induction params as [|q ps IH]; intros i args acc; simpl; [done|].
  pose proof (IH (S i) args (assign acc q (arg_at args i))) as H1.
  pose proof (assign_dom acc q (arg_at args i)) as H2. set_solver.
Qed.

Lemma reduce_params_dom_has params : forall i args acc p,
  p ∈ params -> p <> "__proto__" ->
  p ∈ dom (own (reduce_params params i args acc)).
Proof.
  induction params as [|q ps IH]; intros i args acc p Hin Hp; simpl.
  - by apply elem_of_nil in Hin.
  - apply elem_of_cons in Hin as [->|Hin]; [|by apply IH].
    apply (reduce_params_dom_keeps ps (S i) args).
    rewrite assign_plain; [|done]. simpl. rewrite dom_insert. set_solver.
Qed.

Lemma reduce_params_dom params i args acc :
  "__proto__" ∉ params ->
  dom (own (reduce_params params i args acc)) = list_to_set params ∪ dom (own acc).
Proof.
  intros Hn. apply set_eq. intros p. split.
  - apply reduce_params_dom_incl.
  - intros [Hp|Hp]%elem_of_union.
    + apply elem_of_list_to_set in Hp. apply reduce_params_dom_has; [done|].
      intros ->. done.
    + by apply reduce_params_dom_keeps.
Qed.

Lemma with_type_lookup type (rest : gmap string value) p v :
  rest !! p = Some v -> with_type type rest !! p = Some v.
Proof. intros H. unfold with_type. by apply lookup_union_Some_l. Qed.

Lemma with_type_dom type (rest : gmap string value) :
  dom (with_type type rest) = {["type"]} ∪ dom rest.
Proof. unfold with_type. rewrite dom_union_L, dom_singleton_L. set_solver. Qed.

Lemma fn_body_params d type params args :
  params <> [] -> "__proto__" ∉ params -> length args = length params ->
  fn_body (Closure type params d) args = (d, spec_action type params args).
Proof.
  intros Hne Hproto Hlen. unfold fn_body. simpl.
  destruct (decide (0 < length params)%nat) as [_|H0].
  - f_equal. unfold with_type, spec_action, object_literal. simpl.
    rewrite reduce_params_plain by done. simpl.
    rewrite <- Hlen, args_by_index, foldl_define_union.
    by f_equal.
  - destruct params; [done|simpl in H0; lia].
Qed.

End FnBody.

(** ** The bound-action cache: the claims *)

Lemma action_fresh_closure d type params inst :
  memoizedActionFns inst !! fnKey type params = None ->
  fns (action d type params inst).2 !! (action d type params inst).1
  = Some (Closure type params d).
Proof.
  intros H. unfold action. rewrite H. simpl.
  rewrite lookup_app_r; [|done]. by rewrite Nat.sub_diag.
Qed.

Lemma action_returns_function d type params inst :
  wf inst ->
  exists c, fns (action d type params inst).2 !! (action d type params inst).1 = Some c
    /\ fnKey (fn_type c) (fn_params c) = fnKey type params.
Proof.
  intros W. apply (action_wf d type params) in W.
  apply (W (fnKey type params)). apply action_memo_result.
Qed.

(** C2 (bind stability). For a fixed dispatch sink [d], binding the same
    action kind with the same parameter names a second time returns the
    callable of the first time, both when the second call follows at once
    and when any other [action] calls happen in between. *)
Theorem bind_stability (d : sink) (type : string) (params : list string)
    (inst : instance) (calls : list (sink * string * list string)) :
  let first := action d type params inst in
  (action d type params first.2).1 = first.1
  /\ (action d type params (run_actions calls first.2)).1 = first.1.
Proof.
  simpl. split.
  - by rewrite (action_memo_hit _ _ _ _ _ (action_memo_result d type params inst)).
  - rewrite (action_memo_hit _ _ _ _ (action d type params inst).1); [done|].
    apply run_actions_memo_keeps, action_memo_result.
Qed.




(** C4 (zero-parameter spread). The callable created for [type] with no
    parameter names, called with a record as first argument, dispatches
    [{type}] merged with that record's fields (the record's fields are
    copied over [type]); the callable bound for ["RESTORE_HISTORY"], called
    with [{h: 1}], dispatches [{type: "RESTORE_HISTORY", h: 1}]. *)
Theorem zero_param_spread (d : sink) :
  (forall inst f type props rest,
      fns inst !! f = Some (Closure type [] d) ->
      invoke inst f (VObj props :: rest) = Ok (d, props ∪ {["type" := VStr type]}))
  /\ (let bound := action d "RESTORE_HISTORY" [] mount in
      invoke bound.2 bound.1 [VObj {["h" := VNum 1]}]
      = Ok (d, <["h" := VNum 1]> {["type" := VStr "RESTORE_HISTORY"]})).
Proof.
  split.
  - intros inst f type props rest Hf. unfold invoke. by rewrite Hf.
  - reflexivity.
Qed.

Lemma zero_param_spread_witness :
  invoke (action 7%nat "MOUSE_MOVE" [] mount).2 (action 7%nat "MOUSE_MOVE" [] mount).1
         [VObj {["x" := VNum 3]}; VNull]
  = Ok (7%nat, {["x" := VNum 3]} ∪ {["type" := VStr "MOUSE_MOVE"]}).
Proof.
  apply (proj1 (zero_param_spread 7%nat)). reflexivity.
Defined.

(** C5, as the code has it. One callable is memoized per cache key
    [type(p0,...,pn)]: two [action] calls whose keys differ return distinct
    callables, two calls whose keys agree return the same one. Different
    (kind, names) pairs have different keys, hence distinct callables,
    whenever the kinds contain no opening parenthesis and the names are
    non-empty and contain no comma. *)
Theorem bind_distinct (d : sink) (inst : instance)
    (calls : list (sink * string * list string))
    (t1 t2 : string) (p1 p2 : list string) :
  reachable inst ->
  let first := action d t1 p1 inst in
  let second := action d t2 p2 (run_actions calls first.2) in
  (fnKey t1 p1 <> fnKey t2 p2 -> second.1 <> first.1)
  /\ (fnKey t1 p1 = fnKey t2 p2 -> second.1 = first.1)
  /\ (plain_kind t1 -> plain_kind t2 ->
      Forall plain_name p1 -> Forall plain_name p2 ->
      (t1, p1) <> (t2, p2) -> second.1 <> first.1).
Proof.
  intros R. simpl.
  assert (fnKey t1 p1 <> fnKey t2 p2 ->
    (action d t2 p2 (run_actions calls (action d t1 p1 inst).2)).1
    <> (action d t1 p1 inst).1) as Hkeys.
  { intros Hne. apply (action_distinct_keys _ _ (fnKey t1 p1)).
    - apply reachable_wf, run_actions_reachable. by constructor.
    - apply run_actions_memo_keeps, action_memo_result.
    - congruence. }
  split; [by apply Hkeys|]. split.
  - intros Heq.
    rewrite (action_memo_hit _ _ _ _ (action d t1 p1 inst).1); [done|].
    rewrite <- Heq. apply run_actions_memo_keeps, action_memo_result.
  - intros K1 K2 F1 F2 Hne. apply Hkeys.
    intros Heq. apply Hne.
    destruct (fnKey_plain_inj _ _ _ _ K1 K2 F1 F2 Heq) as [-> ->]. done.
Qed.

Lemma bind_distinct_witness :
  reachable mount
  /\ (action 0%nat "X" ["b"] (action 0%nat "X" ["a"] mount).2).1 <> (action 0%nat "X" ["a"] mount).1.
Proof.
  split; [constructor|].
  apply (proj2 (proj2 (bind_distinct 0%nat mount [] "X" "X" ["a"] ["b"] reachable_mount)));
    try reflexivity; try (repeat constructor; discriminate).
Defined.

(** C5, as stated, fails: the pairs [("X", ["a,b"])] and [("X", ["a"; "b"])]
    differ but share the key ["X(a,b)"], so the second call returns the
    callable of the first, which then dispatches the one-field shape. *)
Lemma bind_distinct_counterexample :
  ("X", ["a,b"]) <> ("X", ["a"; "b"])
  /\ (action 0%nat "X" ["a"; "b"] (action 0%nat "X" ["a,b"] mount).2).1
     = (action 0%nat "X" ["a,b"] mount).1
  /\ invoke (action 0%nat "X" ["a"; "b"] (action 0%nat "X" ["a,b"] mount).2).2
            (action 0%nat "X" ["a"; "b"] (action 0%nat "X" ["a,b"] mount).2).1
            [VNum 1; VNum 2]
     = Ok (0%nat, <["a,b" := VNum 1]> {["type" := VStr "X"]}).
Proof. split; [discriminate|]. split; reflexivity. Qed.

(** C6 (missing arguments). A bound callable with declared parameter
    names, called with fewer arguments than names, raises nothing: it
    dispatches one action to its sink, whose fields are among [type] and
    the declared names. Each name past the supplied arguments holds
    [undefined]; only a missing [__proto__] may instead be absent from
    the record (the setter inherited from [Object.prototype] ignores
    [undefined]). Each supplied name other than [__proto__] holds its
    argument (the last one of that name). *)
Theorem missing_args_undefined (d : sink) (inst : instance) (f : fnref)
    (type : string) (params : list string) (args : list value) :
  fns inst !! f = Some (Closure type params d) ->
  (length args < length params)%nat ->
  exists act,
    invoke inst f args = Ok (d, act)
    /\ dom act ⊆ {["type"]} ∪ list_to_set params
    /\ ("__proto__" ∉ params -> dom act = {["type"]} ∪ list_to_set params)
    /\ (forall j p, params !! j = Some p -> (length args <= j)%nat ->
          p <> "__proto__" -> act !! p = Some VUndefined)
    /\ (forall j, params !! j = Some "__proto__" -> (length args <= j)%nat ->
          act !! "__proto__" = None \/ act !! "__proto__" = Some VUndefined)
    /\ (forall j p a, params !! j = Some p -> args !! j = Some a ->
          p <> "__proto__" -> p ∉ drop (S j) params -> act !! p = Some a).
Proof.
  intros Hf Hlt.
  exists (with_type type (own (reduce_params params 0 args empty_object))).
  assert (0 < length params)%nat as Hpos by lia.
  split; [|split; [|split; [|split; [|split]]]].
  - unfold invoke, fn_body. rewrite Hf. simpl. by rewrite decide_True.
  - rewrite with_type_dom.
    pose proof (reduce_params_dom_incl params 0 args empty_object) as H.
    simpl in H. set_solver.
  - intros Hproto. rewrite with_type_dom, reduce_params_dom by done. simpl.
    rewrite dom_empty_L. set_solver.
  - intros j p Hj Hlen Hp. apply with_type_lookup.
    by apply (reduce_params_missing_at params 0 j).
  - intros j Hj Hlen.
    assert (forall rest : gmap string value,
              with_type type rest !! "__proto__" = rest !! "__proto__") as Hw.
    { intros rest. unfold with_type. rewrite lookup_union, lookup_singleton_ne by done.
      by destruct (rest !! "__proto__"). }
    rewrite Hw. by apply (reduce_params_proto_missing_at params 0 j).
  - intros j p a Hj Ha Hp Hn. apply with_type_lookup.
    rewrite (reduce_params_last params 0 j); [|done..].
    unfold arg_at. simpl. by rewrite Ha.
Qed.

Lemma missing_args_undefined_witness :
  exists act,
    invoke (action 7%nat "ADD_POLYGON_POINT" ["polygon"; "point"; "pointIndex"] mount).2
           (action 7%nat "ADD_POLYGON_POINT" ["polygon"; "point"; "pointIndex"] mount).1
           [VStr "P"]
    = Ok (7%nat, act)
    /\ dom act ⊆ {["type"]} ∪ list_to_set ["polygon"; "point"; "pointIndex"]
    /\ ("__proto__" ∉ ["polygon"; "point"; "pointIndex"] ->
        dom act = {["type"]} ∪ list_to_set ["polygon"; "point"; "pointIndex"])
    /\ (forall j p, ["polygon"; "point"; "pointIndex"] !! j = Some p ->
          (length [VStr "P"] <= j)%nat -> p <> "__proto__" -> act !! p = Some VUndefined)
    /\ (forall j, ["polygon"; "point"; "pointIndex"] !! j = Some "__proto__" ->
          (length [VStr "P"] <= j)%nat ->
          act !! "__proto__" = None \/ act !! "__proto__" = Some VUndefined)
    /\ (forall j p a, ["polygon"; "point"; "pointIndex"] !! j = Some p ->
          [VStr "P"] !! j = Some a -> p <> "__proto__" ->
          p ∉ drop (S j) ["polygon"; "point"; "pointIndex"] -> act !! p = Some a).
Proof.
  apply (missing_args_undefined 7%nat _ _ "ADD_POLYGON_POINT"); [reflexivity|simpl; lia].
Defined.

(** A missing [__proto__]: the record is [{type}]; once an earlier
    [null] has removed the prototype of the accumulator, and the setter
    with it, the name becomes an own field holding [undefined]. *)
Lemma missing_proto_example :
  invoke (action 7%nat "X" ["__proto__"] mount).2
         (action 7%nat "X" ["__proto__"] mount).1 []
  = Ok (7%nat, {["type" := VStr "X"]})
  /\ invoke (action 7%nat "X" ["__proto__"; "__proto__"] mount).2
            (action 7%nat "X" ["__proto__"; "__proto__"] mount).1 [VNull]
     = Ok (7%nat, <["__proto__" := VUndefined]> {["type" := VStr "X"]}).
Proof. split; reflexivity. Qed.

(** ** Running the body of the component *)

Section Completions.

Lemma always_ret {A : Type} (P : A -> Prop) (a : A) : P a -> always P (mret a).
Proof. intros H inst. by exists a, inst. Qed.

Lemma always_bind {A B : Type} (Q : A -> Prop) (P : B -> Prop) (m : M A) (k : A -> M B) :
  always Q m -> (forall a, Q a -> always P (k a)) -> always P (m ≫= k).
Proof.
  intros Hm Hk inst. destruct (Hm inst) as (a & inst1 & E & Ha).
  destruct (Hk a Ha inst1) as (b & inst2 & E' & Hb).
  exists b, inst2. split; [|done].
  unfold mbind, M_bind. by rewrite E.
Qed.

Lemma always_mono {A : Type} (P Q : A -> Prop) (m : M A) :
  (forall a, P a -> Q a) -> always P m -> always Q m.
Proof.
  intros H Hm inst. destruct (Hm inst) as (a & inst' & E & Ha). eauto.
Qed.

Lemma always_bound d type params : always is_bound (bound d type params).
Proof.
  intros inst. unfold bound. destruct (action d type params inst) as [f inst'].
  exists (Handler (BoundAction f)), inst'. split; [done|]. by exists f.
Qed.

Lemma always_when (P : node -> Prop) (c : bool) (m : M node) :
  always P m -> always (fun o => forall n, o = Some n -> P n) (when c m).
Proof.
  intros Hm. unfold when. destruct c.
  - eapply always_bind; [exact Hm|]. intros a Ha. apply always_ret.
    intros n [= <-]. done.
  - apply always_ret. intros n [=].
Qed.

(** Nothing after a [return] runs. *)
Lemma return_ends {B : Type} (v : node) (k : unit -> M B) (inst : instance) :
  (return_ v ≫= k) inst = (Return v, inst).
Proof. reflexivity. Qed.

Lemma bind_ext {A B : Type} (m : M A) (k k' : A -> M B) (inst : instance) :
  (forall a i, k a i = k' a i) -> (m ≫= k) inst = (m ≫= k') inst.
Proof.
  intros H. unfold mbind, M_bind. destruct (m inst) as [[a|v|e] i]; [apply H|done..].
Qed.

End Completions.

(** ** What the elements are made of *)

Section Trees.

Lemma leaf_tidy n : leaf n -> tidy n.
Proof. intros [Hc Hh]. unfold tidy. rewrite Hc, Hh. split; constructor. Qed.

Lemma leaf_opt_node {A : Type} (f : A -> node) (o : option A) :
  (forall a, leaf (f a)) -> leaf (opt_node f o).
Proof. intros H. destruct o; [apply H|done]. Qed.

Lemma is_bound_tidy n : is_bound n -> tidy n.
Proof. intros [f ->]. split; repeat constructor. Qed.

Lemma tidy_element c (ps : list (string * node)) :
  c ∈ first_return_components -> Forall (fun kp => tidy kp.2) ps -> tidy (Element c ps).
Proof.
  intros Hc Hps. split; simpl.
  - constructor; [done|]. induction Hps as [|kp ps [H1 _] _ IH]; simpl; [constructor|].
    by apply Forall_app.
  - induction Hps as [|kp ps [_ H2] _ IH]; simpl; [constructor|].
    by apply Forall_app.
Qed.

Lemma tidy_nodes (l : list node) : Forall tidy l -> tidy (Nodes l).
Proof.
  intros Hl. split; simpl.
  - induction Hl as [|n l [H1 _] _ IH]; simpl; [constructor|]. by apply Forall_app.
  - induction Hl as [|n l [_ H2] _ IH]; simpl; [constructor|]. by apply Forall_app.
Qed.

Lemma tidy_filter_Boolean (l : list (option node)) :
  Forall (fun o => forall n, o = Some n -> tidy n) l -> Forall tidy (filter_Boolean l).
Proof.
  unfold filter_Boolean. induction 1 as [|o l Ho _ IH]; simpl; [constructor|].
  destruct o as [n|]; simpl; [|done]. constructor; [by apply Ho|done].
Qed.

Lemma tidy_spread_settings l : Forall (fun kp => tidy kp.2) (spread_settings l).
Proof.
  unfold spread_settings. induction l as [|kv l IH]; simpl; constructor; [|done].
  by apply leaf_tidy.
Qed.

End Trees.

(** ** The elements of the first return *)

Section FirstReturn.

Variable env : Env.
Variable props : Props.
Variable state : MainLayoutState.

Ltac solve_leaf :=
  repeat first
    [ assumption
    | split; reflexivity
    | apply leaf_opt_node; intros
    | case_match ].

Ltac solve_tidy :=
  simpl; unfold regions_or_null;
  first
    [ solve [apply is_bound_tidy; assumption]
    | solve [apply leaf_tidy; solve_leaf]
    | solve [split; repeat constructor] ].

Ltac step_bound :=
  eapply always_bind; [apply always_bound|]; intros ? ?.

Ltac in_first := unfold first_return_components; set_solver.

Lemma canvas_tidy activeImage implied rs :
  canvas_regions state activeImage implied = Ok rs ->
  always (fun n => tidy n /\ prop_of "regions" n = Some (Regions rs))
         (canvas_element env props state activeImage implied).
Proof.
  intros Hrs. unfold canvas_element. rewrite Hrs.
  eapply (always_bind (fun r => r = rs)).
  { intros inst. by exists rs, inst. }
  intros ? ->. do 16 step_bound.
  apply always_ret. split.
  - apply tidy_element; [in_first|].
    apply Forall_app. split; [apply tidy_spread_settings|].
    repeat (constructor; [solve_tidy|]). constructor.
  - unfold prop_of. by rewrite foldl_app.
Qed.

Ltac tidy_elem :=
  apply tidy_element; [in_first|]; repeat (constructor; [solve_tidy|]); constructor.

Lemma right_sidebar_tidy activeImage :
  always (fun l => Forall (fun o => forall n, o = Some n -> tidy n) l
                   /\ exists rest, l = debug_box env state :: rest)
         (right_sidebar_items env props state activeImage).
Proof.
  unfold right_sidebar_items.
  eapply always_bind.
  { apply (always_when tidy). step_bound. apply always_ret. tidy_elem. }
  intros tags Htags.
  eapply always_bind.
  { apply (always_when tidy). step_bound. apply always_ret. tidy_elem. }
  intros selector Hselector.
  do 3 step_bound.
  eapply always_bind.
  { apply (always_when tidy). do 3 step_bound. apply always_ret. tidy_elem. }
  intros kfsel Hkfsel.
  step_bound. apply always_ret. split; [|by eexists].
  constructor.
  { unfold debug_box. intros n. case_match; [|done]. intros [= <-]. tidy_elem. }
  constructor.
  { intros n. destruct (taskDescription state) as [t|]; [|done].
    destruct (truthy (VStr t)); [|done]. intros [= <-]. tidy_elem. }
  constructor; [done|]. constructor; [done|].
  constructor.
  { intros n [= <-]. tidy_elem. }
  constructor; [done|].
  constructor; [|constructor].
  intros n [= <-]. tidy_elem.
Qed.

Lemma workspace_tidy activeImage canvas :
  tidy canvas ->
  always (fun n => tidy n
                   /\ (exists ps, n = Element "Workspace" ps)
                   /\ prop_of "children" n = Some canvas
                   /\ exists rest, prop_of "rightSidebarItems" n
                        = Some (Nodes (filter_Boolean (debug_box env state :: rest))))
         (workspace_element env props state activeImage canvas).
Proof.
  intros Hcanvas. unfold workspace_element.
  eapply always_bind.
  { apply (always_when tidy). step_bound. apply always_ret. tidy_elem. }
  intros timeline Htimeline.
  eapply always_bind; [apply right_sidebar_tidy|]. intros items [Hitems [rest ->]].
  apply always_ret. split; [|split; [by eexists|split; [done|by exists rest]]].
  apply tidy_element; [in_first|].
  constructor; [solve_tidy|]. constructor; [solve_tidy|].
  constructor.
  { cbn [snd]. apply tidy_nodes, tidy_filter_Boolean.
    constructor; [exact Htimeline|constructor]. }
  constructor.
  { cbn [snd]. apply tidy_nodes, tidy_filter_Boolean.
    repeat (constructor; [intros n Hn; repeat case_match; try done;
                          injection Hn as <-; by apply leaf_tidy|]).
    constructor. }
  constructor; [solve_tidy|]. constructor; [solve_tidy|].
  constructor.
  { cbn [snd]. apply tidy_nodes. repeat (constructor; [by apply leaf_tidy|]). constructor. }
  constructor.
  { cbn [snd]. by apply tidy_nodes, tidy_filter_Boolean. }
  constructor; [done|constructor].
Qed.

End FirstReturn.

(** ** One render *)

Section OneRender.

Variable env : Env.
Variable props : Props.
Variable state : MainLayoutState.

Lemma findIndex_lt key imgs i : findIndex key imgs = Some i -> (i < length imgs)%nat.
Proof.
  revert i. induction imgs as [|img rest IH]; intros i; simpl; [done|].
  destruct (String.eqb (src img) key).
  - intros [= <-]. lia.
  - destruct (findIndex key rest) as [j|]; simpl; [|done].
    intros [= <-]. specialize (IH j eq_refl). lia.
Qed.

Lemma findIndex_src key imgs i img :
  findIndex key imgs = Some i -> imgs !! i = Some img -> src img = key.
Proof.
  revert i. induction imgs as [|x rest IH]; intros i; simpl; [done|].
  destruct (String.eqb (src x) key) eqn:E.
  - intros [= <-] [= <-]. by apply String.eqb_eq.
  - destruct (findIndex key rest) as [j|]; simpl; [|done].
    intros [= <-]. simpl. by apply IH.
Qed.

Lemma nextImage_of_resolved :
  exists n, nextImage_of state (getActiveImage state).1 = Ok n.
Proof.
  unfold getActiveImage, nextImage_of.
  destruct (annotationType state); [|by eexists].
  destruct (selectedImage state) as [key|]; [|by eexists].
  destruct (images state) as [imgs|] eqn:E; [|by eexists].
  destruct (findIndex key imgs); simpl; rewrite ?E; by eexists.
Qed.

(** In image mode the index and the entry are found together. *)
Lemma getActiveImage_image_none :
  annotationType state = ImageMode -> (getActiveImage state).2 = None ->
  (getActiveImage state).1 = None.
Proof.
  unfold getActiveImage. intros ->.
  destruct (selectedImage state) as [key|]; [|done].
  destruct (images state) as [imgs|]; [|done].
  destruct (findIndex key imgs) as [i|] eqn:E; [|done]. simpl.
  apply findIndex_lt, lookup_lt_is_Some_2 in E as [img E]. by rewrite E.
Qed.

(** A render either throws where the [regions] prop of the canvas is
    computed, before anything is bound, or returns the element of the
    first [return]. *)
Lemma MainLayout_cases (inst : instance) :
  let regions := canvas_regions state (getActiveImage state).2 (useImpliedVideoRegions state) in
  (exists rs ws inst',
      regions = Ok rs
      /\ MainLayout env props state inst = (Ok ws, inst')
      /\ tidy ws
      /\ (exists ps, ws = Element "Workspace" ps)
      /\ (exists canvas, prop_of "children" ws = Some canvas
            /\ prop_of "regions" canvas = Some (Regions rs))
      /\ (exists rest, prop_of "rightSidebarItems" ws
            = Some (Nodes (filter_Boolean (debug_box env state :: rest)))))
  \/ (exists e, regions = Throw e
      /\ MainLayout env props state inst = (Throw e, inst)).
Proof.
  simpl. unfold MainLayout, call_component, MainLayout_body.
  destruct nextImage_of_resolved as [n Hn].
  destruct (getActiveImage state) as [idx activeImage]. simpl in *.
  unfold mbind at 1, M_bind at 1. rewrite Hn. simpl.
  destruct (canvas_regions state activeImage (useImpliedVideoRegions state))
    as [rs|e] eqn:Hrs.
  - left.
    destruct (canvas_tidy env props state _ _ _ Hrs inst)
      as (canvas & inst1 & E1 & T1 & Hregions).
    destruct (workspace_tidy env props state activeImage canvas T1 inst1)
      as (ws & inst2 & E2 & T2 & Hws & Hchildren & Hside).
    exists rs, ws, inst2. split; [done|].
    split; [|split; [done|split; [done|split; [by exists canvas|done]]]].
    unfold mbind at 1, M_bind at 1. rewrite E1.
    unfold mbind at 1, M_bind at 1. rewrite E2. done.
  - right. exists e. split; [done|].
    unfold mbind at 1, M_bind at 1. unfold canvas_element.
    unfold mbind at 1, M_bind at 1. rewrite Hrs. done.
Qed.

End OneRender.

(** ** The derived view: the claims *)

(** C1. In image annotation mode, when the active image resolves, the
    render returns and the canvas receives [activeImage.regions], or the
    empty list when that image has no [regions]; when no active image
    resolves, the render throws a [TypeError] at [activeImage.regions],
    before anything is bound, instead of supplying the empty list. *)
Theorem image_mode_regions (env : Env) (props : Props) (st : MainLayoutState)
    (inst : instance) :
  annotationType st = ImageMode ->
  (forall img, (getActiveImage st).2 = Some img ->
     exists ws canvas inst',
       MainLayout env props st inst = (Ok ws, inst')
       /\ prop_of "children" ws = Some canvas
       /\ prop_of "regions" canvas = Some (Regions (default [] (regions img))))
  /\ ((getActiveImage st).2 = None ->
      MainLayout env props st inst
      = (Throw (TypeError "Cannot read properties of null (reading 'regions')"), inst)).
Proof.
  intros Himg.
  destruct (MainLayout_cases env props st inst)
    as [(rs & ws & inst' & Hrs & E & _ & _ & (canvas & Hc & Hr) & _)|(e & He & E)];
    unfold canvas_regions in *; rewrite Himg in *;
    (split; [intros img Ha|intros Ha]); rewrite Ha in *; try done.
  - injection Hrs as <-. by exists ws, canvas, inst'.
  - injection He as <-. done.
Qed.

Lemma image_mode_regions_witness :
  annotationType (Samples.image_state (Some "z")) = ImageMode
  /\ (getActiveImage (Samples.image_state (Some "z"))).2 = None
  /\ MainLayout (Samples.environment None) Samples.some_props
                (Samples.image_state (Some "z")) mount
     = (Throw (TypeError "Cannot read properties of null (reading 'regions')"), mount).
Proof.
  split; [reflexivity|]. split; [reflexivity|].
  apply (proj2 (image_mode_regions (Samples.environment None) Samples.some_props
                  (Samples.image_state (Some "z")) mount eq_refl)).
  reflexivity.
Defined.

(** C7. The diagnostic panel is an item of the right sidebar exactly when
    the persisted flag [$ANNOTATE_DEBUG_MODE] is truthy, and it receives
    [lastAction]; but its [state] prop is the boolean [true], not the live
    state, which is what the [debug] prop of the sidebar of the second
    [return] holds. *)
Theorem debug_panel (env : Env) (props : Props) (st : MainLayoutState)
    (inst : instance) :
  debug_box env st
  = (if truthy (debug_flag env)
     then Some (Element "DebugBox" [
            ("state", Data (VBool true));
            ("lastAction", Data (lastAction st))])
     else None)
  /\ (forall ws inst', MainLayout env props st inst = (Ok ws, inst') ->
        exists rest, prop_of "rightSidebarItems" ws
                     = Some (Nodes (filter_Boolean (debug_box env st :: rest))))
  /\ sidebar_debug env st
     = (if truthy (debug_flag env) then StateRef st else Data (debug_flag env)).
Proof.
  split; [|split; [|done]].
  - unfold debug_box, debugModeOn. by destruct (truthy (debug_flag env)).
  - intros ws inst' E.
    destruct (MainLayout_cases env props st inst)
      as [(rs & ws' & inst'' & _ & E' & _ & _ & _ & Hside)|(e & _ & E')];
      rewrite E in E'; [|done].
    by injection E' as <- <-.
Qed.

Lemma debug_panel_witness :
  debug_box (Samples.environment (Some "1")) (Samples.video_state 0)
  = (if truthy (debug_flag (Samples.environment (Some "1")))
     then Some (Element "DebugBox" [
            ("state", Data (VBool true));
            ("lastAction", Data (lastAction (Samples.video_state 0)))])
     else None).
Proof.
  exact (proj1 (debug_panel (Samples.environment (Some "1")) Samples.some_props
                  (Samples.video_state 0) mount)).
Defined.

(** C7 at a concrete input: with the flag persisted as ["1"], the panel
    of a video-mode render receives [state = true]. *)
Lemma debug_panel_example :
  (rendered (MainLayout (Samples.environment (Some "1")) Samples.some_props
                        (Samples.video_state 0) mount)
     ≫= prop_of "rightSidebarItems") ≫= first_item
  = Some (Element "DebugBox" [
            ("state", Data (VBool true));
            ("lastAction", Data (VObj {["type" := VStr "MOUSE_MOVE"]}))]).
Proof. vm_compute. reflexivity. Qed.

(** C8 (implied region passthrough). At a time that is a keyframe key the
    implied regions are that keyframe's regions, unmodified; so are the
    regions the hook computes from the state and, in video mode, the
    regions the canvas receives. For keyframes [{0: R0, 1000: R1}] the
    implied regions are [R0] at time 0 and [R1] at time 1000. *)
Theorem implied_passthrough :
  (forall (kfs : gmap Z (list Region)) t rs,
      kfs !! t = Some rs -> impliedRegions kfs t = rs)
  /\ (forall st kfs rs,
        keyframes st = Some kfs -> kfs !! currentVideoTime st = Some rs ->
        useImpliedVideoRegions st = rs)
  /\ (forall env props st inst kfs rs,
        annotationType st = VideoMode ->
        keyframes st = Some kfs -> kfs !! currentVideoTime st = Some rs ->
        exists ws canvas inst',
          MainLayout env props st inst = (Ok ws, inst')
          /\ prop_of "children" ws = Some canvas
          /\ prop_of "regions" canvas = Some (Regions rs))
  /\ (forall R0 R1 : list Region,
        impliedRegions (<[0 := R0]> {[1000 := R1]}) 0 = R0
        /\ impliedRegions (<[0 := R0]> {[1000 := R1]}) 1000 = R1).
Proof.
  assert (forall (kfs : gmap Z (list Region)) t rs,
             kfs !! t = Some rs -> impliedRegions kfs t = rs) as Hkey.
  { intros kfs t rs H. unfold impliedRegions. by rewrite H. }
  assert (forall st kfs rs,
             keyframes st = Some kfs -> kfs !! currentVideoTime st = Some rs ->
             useImpliedVideoRegions st = rs) as Hhook.
  { intros st kfs rs Hk H. unfold useImpliedVideoRegions. rewrite Hk. by apply Hkey. }
  split; [done|]. split; [done|]. split.
  - intros env props st inst kfs rs Hv Hk H.
    destruct (MainLayout_cases env props st inst)
      as [(rs' & ws & inst' & Hrs & E & _ & _ & (canvas & Hc & Hr) & _)|(e & He & _)];
      unfold canvas_regions in *; rewrite Hv in *; [|done].
    injection Hrs as <-. rewrite (Hhook st kfs rs Hk H) in Hr.
    by exists ws, canvas, inst'.
  - intros R0 R1. split; apply Hkey.
    + apply lookup_insert_eq.
    + rewrite lookup_insert_ne; [|done]. apply lookup_singleton_eq.
Qed.

Lemma implied_passthrough_witness :
  impliedRegions (<[0 := [Samples.region "r0"]]> {[1000 := [Samples.region "r1"]]}) 1000
  = [Samples.region "r1"].
Proof.
  apply (proj1 implied_passthrough). reflexivity.
Defined.

(** C9 (refocus rule). On a pointer event handled by the refocus
    handler: when the surface contains the focused element nothing
    changes; otherwise, when the surface contains the event's target,
    [focus()] is called on the surface and then on the target (the focus
    ends on the target when it can take it, else on the surface when that
    can); in every other case, and when no surface is attached, nothing
    changes. *)
Theorem refocus_rule (surface target : elt) (d : browser) :
  (contains d surface (activeElement d) = true ->
     refocusOnMouseEvent (Some surface) target d = d)
  /\ (contains d surface (activeElement d) = false ->
      contains d surface (Some target) = true ->
      focusCalls (refocusOnMouseEvent (Some surface) target d)
      = (focusCalls d ++ [surface; target])%list
      /\ document (refocusOnMouseEvent (Some surface) target d) = document d
      /\ activeElement (refocusOnMouseEvent (Some surface) target d)
         = if takes_focus d target then Some target
           else if takes_focus d surface then Some surface
           else activeElement d)
  /\ (contains d surface (activeElement d) = false ->
      contains d surface (Some target) = false ->
      refocusOnMouseEvent (Some surface) target d = d)
  /\ refocusOnMouseEvent None target d = d.
Proof.
  unfold refocusOnMouseEvent. split; [|split; [|split]].
  - intros ->. done.
  - intros -> ->. split; [|split].
    + simpl. by rewrite <- app_assoc.
    + done.
    + unfold focus, takes_focus. simpl.
      destruct (find_node target (document d)) as [n|];
        [destruct (is_focusable n); [done|]|];
        destruct (find_node surface (document d)) as [m|];
        try done; by destruct (is_focusable m).
  - intros -> ->. done.
  - done.
Qed.

Lemma refocus_rule_witness :
  contains (Browser Samples.page (Some 4%nat) []) 1%nat (Some 4%nat) = false
  /\ contains (Browser Samples.page (Some 4%nat) []) 1%nat (Some 3%nat) = true
  /\ focusCalls (refocusOnMouseEvent (Some 1%nat) 3%nat (Browser Samples.page (Some 4%nat) []))
     = ([] ++ [1%nat; 3%nat])%list
  /\ document (refocusOnMouseEvent (Some 1%nat) 3%nat (Browser Samples.page (Some 4%nat) []))
     = Samples.page
  /\ activeElement (refocusOnMouseEvent (Some 1%nat) 3%nat
                      (Browser Samples.page (Some 4%nat) []))
     = if takes_focus (Browser Samples.page (Some 4%nat) []) 3%nat then Some 3%nat
       else if takes_focus (Browser Samples.page (Some 4%nat) []) 1%nat then Some 1%nat
       else Some 4%nat.
Proof.
  split; [reflexivity|]. split; [reflexivity|].
  apply (proj1 (proj2 (refocus_rule 1%nat 3%nat (Browser Samples.page (Some 4%nat) []))));
    reflexivity.
Defined.

Lemma tidy_not_second ws c :
  tidy ws -> c ∈ second_return_components -> c ∉ components ws.
Proof.
  intros [Hc _] Hsec Hin.
  rewrite Forall_forall in Hc. specialize (Hc c Hin).
  unfold first_return_components in Hc. unfold second_return_components in Hsec.
  set_solver.
Qed.

Lemma tidy_passed ws h : tidy ws -> h ∈ handlers ws -> passed h.
Proof. intros [_ Hh] Hin. rewrite Forall_forall in Hh. by apply Hh. Qed.

(** C10. A render is the body cut after its first [return]: the code
    after it changes neither the result nor the memo table. The render
    returns whenever the [regions] prop of the canvas is computed (video
    mode, or an active image resolves), and what it returns is the
    [Workspace] element: no component of the second [return]
    ([Fullscreen], [HotkeyDiv], [Header] with its title and
    [nextVideoFrameHasRegions], [IconTools], [Sidebar], [SettingsDialog])
    and none of its handlers (the refocus handler among them) occurs in
    it. *)
Theorem render_is_first_return (env : Env) (props : Props) (st : MainLayoutState)
    (inst : instance) :
  MainLayout env props st inst = call_component (first_return_body env props st) inst
  /\ (annotationType st = VideoMode \/ is_Some (getActiveImage st).2 ->
      exists ws inst', MainLayout env props st inst = (Ok ws, inst'))
  /\ (forall ws inst', MainLayout env props st inst = (Ok ws, inst') ->
        (exists ps, ws = Element "Workspace" ps)
        /\ Forall (fun c => c ∉ components ws) second_return_components
        /\ (RefocusOnMouseEvent ∉ handlers ws)
        /\ (OnFullscreenChange ∉ handlers ws)
        /\ (OnSettingsClose ∉ handlers ws)
        /\ (forall d, DispatchFn d ∉ handlers ws)).
Proof.
  split; [|split].
  - unfold MainLayout, call_component, MainLayout_body, first_return_body.
    destruct (getActiveImage st) as [idx activeImage].
    assert (forall A (a b : completion A * instance), a = b ->
              match a with
              | (Normal _, i) => (Ok (Data VUndefined), i)
              | (Return v, i) => (Ok v, i)
              | (Abrupt e, i) => (Throw e, i)
              end
              = match b with
                | (Normal _, i) => (Ok (Data VUndefined), i)
                | (Return v, i) => (Ok v, i)
                | (Abrupt e, i) => (Throw e, i)
                end) as Hcong by (by intros A a b ->).
    apply Hcong.
    apply bind_ext. intros nextImage i1.
    apply bind_ext. intros canvas i2.
    apply bind_ext. intros ws i3.
    apply return_ends.
  - intros Hok.
    destruct (MainLayout_cases env props st inst)
      as [(rs & ws & inst' & _ & E & _)|(e & He & _)]; [by exists ws, inst'|].
    exfalso. unfold canvas_regions in He.
    destruct Hok as [Hv|[img Ha]].
    + by rewrite Hv in He.
    + rewrite Ha in He. by destruct (annotationType st).
  - intros ws inst' E.
    destruct (MainLayout_cases env props st inst)
      as [(rs & ws' & inst'' & _ & E' & T & Hws & _)|(e & _ & E')];
      rewrite E in E'; [|done].
    injection E' as <- <-.
    split; [done|]. split.
    + apply Forall_forall. intros c Hc. by apply tidy_not_second.
    + split; [intros Hin; by apply (tidy_passed _ _ T) in Hin|].
      split; [intros Hin; by apply (tidy_passed _ _ T) in Hin|].
      split; [intros Hin; by apply (tidy_passed _ _ T) in Hin|].
      intros d Hin. by apply (tidy_passed _ _ T) in Hin.
Qed.

Lemma render_is_first_return_witness :
  exists ws inst',
    MainLayout (Samples.environment None) Samples.some_props
               (Samples.image_state (Some "b")) mount = (Ok ws, inst').
Proof.
  apply (proj1 (proj2 (render_is_first_return (Samples.environment None)
                         Samples.some_props (Samples.image_state (Some "b")) mount))).
  right. by eexists.
Defined.

(** ** The colour table *)

Section ColorFacts.

Import Colors.

Lemma hex_digit_range c d : hex_digit c = Some d -> 0 <= d < 16.
Proof.
  unfold hex_digit. repeat case_match; intros [= <-]; lia.
Qed.

Lemma hex_digit_plain c d :
  hex_digit c = Some d ->
  is_white_space c = false /\ Ascii.eqb c "#" = false.
Proof.
  destruct c as [[] [] [] [] [] [] [] []]; vm_compute; intros H; try discriminate H; done.
Qed.

Lemma parseInt16_digits c c' r d d' :
  hex_digit c = Some d -> hex_digit c' = Some d' ->
  parseInt16 (String c (String c' r))
  = (fun n => 1 * n) <$> read_digits None (String c (String c' r)).
Proof.
  intros H H'.
  destruct c as [[] [] [] [] [] [] [] []]; try (vm_compute in H; discriminate H);
    try reflexivity.
  destruct c' as [[] [] [] [] [] [] [] []]; try (vm_compute in H'; discriminate H');
    reflexivity.
Qed.

Lemma remove_first_hash_digits s d1 d2 d3 d4 d5 d6 :
  six_digits s d1 d2 d3 d4 d5 d6 ->
  remove_first_hash s = s /\ remove_first_hash (String "#" s) = s.
Proof.
  intros (c1 & c2 & c3 & c4 & c5 & c6 & -> & H1 & H2 & H3 & H4 & H5 & H6).
  split; [|done]. simpl.
  by rewrite (proj2 (hex_digit_plain _ _ H1)), (proj2 (hex_digit_plain _ _ H2)),
    (proj2 (hex_digit_plain _ _ H3)), (proj2 (hex_digit_plain _ _ H4)),
    (proj2 (hex_digit_plain _ _ H5)), (proj2 (hex_digit_plain _ _ H6)).
Qed.

(** The value of the colour whose channels are [r], [g] and [b]. *)
Lemma reverseParseColor_digits s d1 d2 d3 d4 d5 d6 (hash : bool) :
  six_digits s d1 d2 d3 d4 d5 d6 ->
  reverseParseColor (if hash then String "#" s else s)
  = Some ((d5 * 16 + d6) * 65536 + (d3 * 16 + d4) * 256 + (d1 * 16 + d2)).
Proof.
  intros Hs. unfold reverseParseColor.
  assert (remove_first_hash (if hash then String "#" s else s) = s) as ->.
  { destruct (remove_first_hash_digits _ _ _ _ _ _ _ Hs). by destruct hash. }
  destruct Hs as (c1 & c2 & c3 & c4 & c5 & c6 & -> & H1 & H2 & H3 & H4 & H5 & H6).
  change (parseInt16 (String c5 (String c6 (String c3 (String c4
            (String c1 (String c2 EmptyString)))))) = Some
           ((d5 * 16 + d6) * 65536 + (d3 * 16 + d4) * 256 + (d1 * 16 + d2))).
  rewrite (parseInt16_digits _ _ _ _ _ H5 H6).
  cbn [read_digits]. rewrite H5. cbn [read_digits]. rewrite H6.
  cbn [read_digits]. rewrite H3. cbn [read_digits]. rewrite H4.
  cbn [read_digits]. rewrite H1. cbn [read_digits]. rewrite H2.
  cbn [read_digits default fmap option_fmap option_map]. unfold id. f_equal. lia.
Qed.

Lemma land_low_high v k : 0 <= v < 2 ^ 27 -> Z.land v (k * 2 ^ 27) = 0.
Proof.
  intros Hv. apply Z.bits_inj'. intros n Hn.
  rewrite Z.land_spec, Z.bits_0.
  destruct (decide (n < 27)) as [Hlt|Hge].
  - rewrite Z.mul_pow2_bits_low by lia. apply andb_false_r.
  - destruct (decide (v = 0)) as [->|Hne]; [by rewrite Z.bits_0|].
    rewrite (Z.bits_above_log2 v n); [done|lia|].
    apply Z.log2_lt_pow2; [lia|].
    apply Z.lt_le_trans with (2 ^ 27); [lia|]. apply Z.pow_le_mono_r; lia.
Qed.

(** A value below [2 ^ 24] is packed under the transparency byte. *)
Lemma pack_small v :
  0 <= v < 2 ^ 24 ->
  ToUint32 (Z.lor (ToInt32 (Some v)) (ToInt32 (Some transparency))) = transparency + v.
Proof.
  intros Hv. unfold ToInt32, ToUint32. simpl default.
  rewrite (Z.mod_small (v + 2 ^ 31)) by lia.
  replace (v + 2 ^ 31 - 2 ^ 31) with v by lia.
  change ((transparency + 2 ^ 31) mod 2 ^ 32 - 2 ^ 31) with ((-15) * 2 ^ 27).
  rewrite <- Z.lxor_lor, <- Z.add_nocarry_lxor by (apply land_low_high; lia).
  rewrite <- (Z.mod_add (v + -15 * 2 ^ 27) 1 (2 ^ 32)) by lia.
  replace (v + -15 * 2 ^ 27 + 1 * 2 ^ 32) with (transparency + v)
    by (unfold transparency; lia).
  apply Z.mod_small. unfold transparency. lia.
Qed.

Lemma transparency_bit_low i :
  Z.testbit transparency i = true -> 0 <= i < 32.
Proof.
  intros H. destruct (decide (i < 0)) as [Hneg|Hpos].
  { by rewrite Z.testbit_neg_r in H. }
  destruct (decide (i < 32)) as [Hlt|Hge]; [lia|].
  rewrite (Z.bits_above_log2 transparency i) in H; [done|done|].
  change (Z.log2 transparency) with 31. lia.
Qed.

End ColorFacts.

(** X1. A colour written as six digits of radix 16, with or without a
    leading ["#"], is packed as [0x88BBGGRR]: its integer is the
    transparency constant plus blue, green and red from the high byte
    down, so the low byte reads back red, the next green, the next blue,
    and the top byte is [0x88]. *)
Theorem colorInt_channels (s : string) (d1 d2 d3 d4 d5 d6 : Z) (hash : bool) :
  Colors.six_digits s d1 d2 d3 d4 d5 d6 ->
  let c := if hash then String "#" s else s in
  let r := d1 * 16 + d2 in
  let g := d3 * 16 + d4 in
  let b := d5 * 16 + d6 in
  Colors.reverseParseColor c = Some (b * 65536 + g * 256 + r)
  /\ Colors.colorInt c = Colors.transparency + b * 65536 + g * 256 + r
  /\ Z.land (Colors.colorInt c) 255 = r
  /\ Z.land (Z.shiftr (Colors.colorInt c) 8) 255 = g
  /\ Z.land (Z.shiftr (Colors.colorInt c) 16) 255 = b
  /\ Z.shiftr (Colors.colorInt c) 24 = 0x88.
Proof.
  intros Hs c r g b.
  pose proof (reverseParseColor_digits s d1 d2 d3 d4 d5 d6 hash Hs) as Hv.
  fold c r g b in Hv.
  assert (0 <= r < 256 /\ 0 <= g < 256 /\ 0 <= b < 256) as (Hr & Hg & Hb).
  { destruct Hs as (c1 & c2 & c3 & c4 & c5 & c6 & _ & H1 & H2 & H3 & H4 & H5 & H6).
    apply hex_digit_range in H1, H2, H3, H4, H5, H6. subst r g b. lia. }
  assert (Colors.colorInt c = Colors.transparency + b * 65536 + g * 256 + r) as Hc.
  { unfold Colors.colorInt. rewrite Hv, pack_small; lia. }
  split; [done|]. split; [done|]. rewrite Hc. unfold Colors.transparency.
  change 255 with (Z.ones 8). rewrite !Z.land_ones, !Z.shiftr_div_pow2 by lia.
  split; [|split; [|split]].
  - symmetry. apply (Z.mod_unique_pos _ _ (8912896 + b * 256 + g)); lia.
  - rewrite <- (Z.div_unique_pos _ (2 ^ 8) (8912896 + b * 256 + g) r) by lia.
    symmetry. apply (Z.mod_unique_pos _ _ (34816 + b)); lia.
  - rewrite <- (Z.div_unique_pos _ (2 ^ 16) (34816 + b) (g * 256 + r)) by lia.
    symmetry. apply (Z.mod_unique_pos _ _ 136); lia.
  - symmetry. apply (Z.div_unique_pos _ _ _ (b * 65536 + g * 256 + r)); lia.
Qed.

Lemma colorInt_channels_witness :
  Colors.six_digits "f44336" 15 4 4 3 3 6
  /\ Colors.reverseParseColor "#f44336" = Some ((3 * 16 + 6) * 65536 + (4 * 16 + 3) * 256 + (15 * 16 + 4))
  /\ Colors.colorInt "#f44336"
     = Colors.transparency + (3 * 16 + 6) * 65536 + (4 * 16 + 3) * 256 + (15 * 16 + 4)
  /\ Z.land (Colors.colorInt "#f44336") 255 = 15 * 16 + 4
  /\ Z.land (Z.shiftr (Colors.colorInt "#f44336") 8) 255 = 4 * 16 + 3
  /\ Z.land (Z.shiftr (Colors.colorInt "#f44336") 16) 255 = 3 * 16 + 6
  /\ Z.shiftr (Colors.colorInt "#f44336") 24 = 0x88.
Proof.
  assert (Colors.six_digits "f44336" 15 4 4 3 3 6) as H.
  { exists "f"%char, "4"%char, "4"%char, "3"%char, "3"%char, "6"%char.
    repeat split; reflexivity. }
  split; [exact H|].
  exact (colorInt_channels "f44336" 15 4 4 3 3 6 true H).
Defined.

(** X2. Whatever the string, well formed or not, the integer computed for
    it is an unsigned 32-bit number with every bit of the transparency
    constant set; a string from which no number is read ([NaN]) gives
    the transparency constant itself. *)
Theorem colorInt_transparency (c : string) :
  0 <= Colors.colorInt c < 2 ^ 32
  /\ Z.land (Colors.colorInt c) Colors.transparency = Colors.transparency
  /\ (Colors.reverseParseColor c = None -> Colors.colorInt c = Colors.transparency).
Proof.
  split; [|split].
  - unfold Colors.colorInt, Colors.ToUint32. apply Z.mod_pos_bound. lia.
  - apply Z.bits_inj'. intros i Hi. rewrite Z.land_spec.
    destruct (Z.testbit Colors.transparency i) eqn:E; [|apply andb_false_r].
    rewrite andb_true_r. apply transparency_bit_low in E as Hlow.
    unfold Colors.colorInt, Colors.ToUint32.
    rewrite Z.mod_pow2_bits_low, Z.lor_spec by lia.
    rewrite <- (Z.mod_pow2_bits_low (Colors.ToInt32 (Some Colors.transparency)) 32 i) by lia.
    change (Colors.ToInt32 (Some Colors.transparency) mod 2 ^ 32) with Colors.transparency.
    rewrite E. apply orb_true_r.
  - intros H. unfold Colors.colorInt. rewrite H. reflexivity.
Qed.

Lemma colorInt_transparency_witness :
  Colors.reverseParseColor "#" = None /\ Colors.colorInt "#" = Colors.transparency.
Proof.
  split; [reflexivity|].
  apply (proj2 (proj2 (colorInt_transparency "#"))). reflexivity.
Defined.

(** X3. [setColors] prepends to [colors] and leaves [colorInts] as
    computed when the module was loaded: after any calls the integers are
    still those of the initial colours, so the integer at index [i]
    belongs to the colour at index [i] plus the number of colours
    prepended so far. *)
Theorem setColors_shift (initial : list string) (calls : list (list string)) :
  let t := foldl (fun t values => Colors.setColors values t) (Colors.load initial) calls in
  Colors.colorInts t = map Colors.colorInt initial
  /\ Colors.colors t = (concat (reverse calls) ++ initial)%list
  /\ forall i : nat,
       Colors.colorInts t !! i
       = Colors.colorInt <$> Colors.colors t !! (length (concat calls) + i)%nat.
Proof.
  simpl.
  assert (forall t0 : Colors.table,
    Colors.colorInts (foldl (fun t values => Colors.setColors values t) t0 calls)
    = Colors.colorInts t0
    /\ Colors.colors (foldl (fun t values => Colors.setColors values t) t0 calls)
       = (concat (reverse calls) ++ Colors.colors t0)%list) as H.
  { induction calls as [|v calls IH]; intros t0; simpl; [done|].
    destruct (IH (Colors.setColors v t0)) as [-> ->]. split; [done|].
    simpl. rewrite reverse_cons, concat_app. simpl.
    by rewrite app_nil_r, <- app_assoc. }
  destruct (H (Colors.load initial)) as [Hi Hc]. simpl in Hi, Hc.
  split; [done|]. split; [done|]. intros i.
  rewrite Hi, Hc, list_lookup_fmap.
  assert (length (concat (reverse calls)) = length (concat calls)) as Hlen.
  { clear. induction calls as [|v calls IH]; [done|].
    rewrite reverse_cons, concat_app, length_app, IH. simpl.
    rewrite !length_app. simpl. lia. }
  rewrite lookup_app_r; rewrite Hlen; [|lia].
  f_equal. f_equal. lia.
Qed.

(** ** More on the bound-action cache *)

Section CacheFacts.

Lemma action_fns_keeps d type params inst f c :
  fns inst !! f = Some c -> fns (action d type params inst).2 !! f = Some c.
Proof.
  intros H. unfold action.
  destruct (memoizedActionFns inst !! fnKey type params); simpl; [done|].
  by apply lookup_app_l_Some.
Qed.

Lemma run_actions_fns_keeps calls inst f c :
  fns inst !! f = Some c -> fns (run_actions calls inst) !! f = Some c.
Proof.
  revert inst. induction calls as [|call calls IH]; intros inst H; simpl; [done|].
  apply IH. by apply action_fns_keeps.
Qed.

Lemma action_memo_incl d type params inst :
  memoizedActionFns inst ⊆ memoizedActionFns (action d type params inst).2.
Proof.
  unfold action. destruct (memoizedActionFns inst !! fnKey type params) eqn:E; simpl.
  - done.
  - by apply insert_subseteq.
Qed.

Lemma run_actions_memo_incl calls inst :
  memoizedActionFns inst ⊆ memoizedActionFns (run_actions calls inst).
Proof.
  revert inst. induction calls as [|call calls IH]; intros inst; simpl; [done|].
  etrans; [apply action_memo_incl|apply IH].
Qed.

Lemma run_actions_app calls1 calls2 inst :
  run_actions (calls1 ++ calls2) inst = run_actions calls2 (run_actions calls1 inst).
Proof. apply foldl_app. Qed.

Lemma action_sound d type params inst :
  plain_kind type -> Forall plain_name params ->
  sound inst -> sound (action d type params inst).2.
Proof.
  intros Hk Hp (W & Hlen & Hplain). split; [by apply action_wf|].
  unfold action. destruct (memoizedActionFns inst !! fnKey type params) eqn:E; simpl.
  - done.
  - split.
    + rewrite length_app, map_size_insert_None by done. simpl. lia.
    + apply Forall_app. split; [done|]. by repeat constructor.
Qed.

Lemma mount_sound : sound mount.
Proof. split; [apply mount_wf|]. split; [done|constructor]. Qed.

(** In a sound instance a plain kind and plain names are answered with
    the function object made for exactly them. *)
Lemma action_plain_closure d type params inst :
  plain_kind type -> Forall plain_name params -> sound inst ->
  exists d0,
    fns (action d type params inst).2 !! (action d type params inst).1
    = Some (Closure type params d0)
    /\ (memoizedActionFns inst !! fnKey type params = None -> d0 = d).
Proof.
  intros Hk Hp (W & _ & Hplain).
  destruct (memoizedActionFns inst !! fnKey type params) as [f|] eqn:E.
  - rewrite (action_memo_hit _ _ _ _ _ E). simpl.
    destruct (W _ _ E) as ([t ps d0] & Hc & Hkey). simpl in Hkey.
    rewrite Forall_forall in Hplain.
    destruct (Hplain (Closure t ps d0)) as [Hk0 Hp0].
    { apply list_elem_of_lookup. by exists f. }
    unfold plain_closure in *. simpl in Hk0, Hp0.
    destruct (fnKey_plain_inj _ _ _ _ Hk0 Hk Hp0 Hp Hkey) as [-> ->].
    exists d0. split; [done|]. intros [=].
  - exists d. split; [|done]. by apply action_fresh_closure.
Qed.

End CacheFacts.

(** X4. The memo table is not keyed by the dispatch function: once a kind
    and names are bound, every later binding of them, whatever dispatch
    the later render passes, returns the callable of the first, and that
    callable keeps dispatching to the sink of the render that created
    it. *)
Theorem stale_dispatch (d1 d2 : sink) (type : string) (params : list string)
    (inst : instance) (calls : list (sink * string * list string))
    (args : list value) :
  memoizedActionFns inst !! fnKey type params = None ->
  let first := action d1 type params inst in
  let later := action d2 type params (run_actions calls first.2) in
  later.1 = first.1
  /\ invoke later.2 later.1 args
     = Ok (d1, (fn_body (Closure type params d1) args).2).
Proof.
  intros Hnew. simpl.
  assert (memoizedActionFns (run_actions calls (action d1 type params inst).2)
            !! fnKey type params = Some (action d1 type params inst).1) as Hmemo
    by apply run_actions_memo_keeps, action_memo_result.
  rewrite (action_memo_hit _ _ _ _ _ Hmemo). simpl. split; [done|].
  unfold invoke.
  rewrite (run_actions_fns_keeps _ _ _ _ (action_fresh_closure d1 _ _ _ Hnew)).
  unfold fn_body. simpl. by destruct (decide (0 < length params)%nat).
Qed.

Lemma stale_dispatch_witness :
  memoizedActionFns mount !! fnKey "CHANGE_REGION" ["region"] = None
  /\ (action 2%nat "CHANGE_REGION" ["region"]
        (run_actions [] (action 1%nat "CHANGE_REGION" ["region"] mount).2)).1
     = (action 1%nat "CHANGE_REGION" ["region"] mount).1
  /\ invoke (action 2%nat "CHANGE_REGION" ["region"]
               (run_actions [] (action 1%nat "CHANGE_REGION" ["region"] mount).2)).2
            (action 2%nat "CHANGE_REGION" ["region"]
               (run_actions [] (action 1%nat "CHANGE_REGION" ["region"] mount).2)).1
            [VNum 5]
     = Ok (1%nat, (fn_body (Closure "CHANGE_REGION" ["region"] 1%nat) [VNum 5]).2).
Proof.
  split; [reflexivity|].
  apply (stale_dispatch 1%nat 2%nat "CHANGE_REGION" ["region"] mount [] [VNum 5]).
  reflexivity.
Defined.

(** X5. The [type] of a dispatched action is not always the bound kind. A
    callable without parameter names, called with a record, dispatches the
    record's own [type] when it has one and the bound kind otherwise, and
    every other field as the record has it. A callable with a parameter
    named [type] dispatches the argument at its last position as [type];
    with names none of which is [type], the bound kind. *)
Theorem kind_overridden (d : sink) (type : string) (inst : instance) (f : fnref) :
  (forall props rest,
      fns inst !! f = Some (Closure type [] d) ->
      exists act,
        invoke inst f (VObj props :: rest) = Ok (d, act)
        /\ act !! "type" = Some (default (VStr type) (props !! "type"))
        /\ forall k, k <> "type" -> act !! k = props !! k)
  /\ (forall params args j,
        fns inst !! f = Some (Closure type params d) ->
        params !! j = Some "type" -> "type" ∉ drop (S j) params ->
        exists act,
          invoke inst f args = Ok (d, act) /\ act !! "type" = Some (arg_at args j))
  /\ (forall params args,
        fns inst !! f = Some (Closure type params d) ->
        params <> [] -> "type" ∉ params ->
        exists act,
          invoke inst f args = Ok (d, act) /\ act !! "type" = Some (VStr type)).
Proof.
  split; [|split].
  - intros props rest Hf. exists (props ∪ {["type" := VStr type]}).
    split; [unfold invoke; by rewrite Hf|]. split.
    + rewrite lookup_union. destruct (props !! "type") as [v|]; simpl.
      * by rewrite lookup_singleton_eq.
      * by rewrite lookup_singleton_eq.
    + intros k Hk. rewrite lookup_union, lookup_singleton_ne by done.
      by destruct (props !! k).
  - intros params args j Hf Hj Hlast.
    exists (with_type type (own (reduce_params params 0 args empty_object))). split.
    + unfold invoke, fn_body. rewrite Hf. simpl.
      rewrite decide_True; [done|]. apply lookup_lt_Some in Hj. lia.
    + apply with_type_lookup. by rewrite (reduce_params_last params 0 j).
  - intros params args Hf Hne Hn.
    exists (with_type type (own (reduce_params params 0 args empty_object))). split.
    + unfold invoke, fn_body. rewrite Hf. simpl.
      rewrite decide_True; [done|]. destruct params; [done|simpl; lia].
    + unfold with_type. rewrite lookup_union, reduce_params_notin by done.
      simpl. by rewrite lookup_empty, lookup_singleton_eq.
Qed.

Lemma kind_overridden_witness :
  exists act,
    invoke (action 7%nat "RESTORE_HISTORY" [] mount).2
           (action 7%nat "RESTORE_HISTORY" [] mount).1
           [VObj (<["type" := VStr "SELECT_REGION"]> {["h" := VNum 1]})]
    = Ok (7%nat, act)
    /\ act !! "type"
       = Some (default (VStr "RESTORE_HISTORY")
                 ((<["type" := VStr "SELECT_REGION"]> {["h" := VNum 1]} : gmap string value)
                    !! "type"))
    /\ forall k, k <> "type" ->
         act !! k = (<["type" := VStr "SELECT_REGION"]> {["h" := VNum 1]} : gmap string value) !! k.
Proof.
  apply (proj1 (kind_overridden 7%nat "RESTORE_HISTORY"
                  (action 7%nat "RESTORE_HISTORY" [] mount).2
                  (action 7%nat "RESTORE_HISTORY" [] mount).1)).
  reflexivity.
Defined.

(** X6. Arguments a bound callable has no use for are ignored. With
    declared names, the arguments past the last name do not change the
    dispatched action. Without names, only the first argument counts, and
    when it is missing, [undefined], [null], a boolean or a number the
    action is exactly [{type}]. *)
Theorem surplus_args_ignored (d : sink) (type : string) (params : list string)
    (inst : instance) (f : fnref) :
  fns inst !! f = Some (Closure type params d) ->
  (params <> [] ->
   forall args extra, (length params <= length args)%nat ->
     invoke inst f (args ++ extra) = invoke inst f args)
  /\ (params = [] ->
      (forall a rest, invoke inst f (a :: rest) = invoke inst f [a])
      /\ invoke inst f [] = Ok (d, {["type" := VStr type]})
      /\ forall a, (forall s, a <> VStr s) -> (forall props, a <> VObj props) ->
           invoke inst f [a] = Ok (d, {["type" := VStr type]})).
Proof.
  intros Hf. unfold invoke. rewrite Hf. split.
  - intros Hne args extra Hlen. f_equal. unfold fn_body. simpl.
    destruct (decide (0 < length params)%nat) as [_|H0];
      [|destruct params; [done|simpl in H0; lia]].
    rewrite !reduce_params_seq.
    replace (map (arg_at (args ++ extra)) (seq 0 (length params)))
      with (map (arg_at args) (seq 0 (length params))); [done|].
    apply List.map_ext_in. intros i Hi. apply in_seq in Hi.
    unfold arg_at. rewrite lookup_app_l; [done|lia].
  - intros ->. split; [done|]. split; [done|].
    intros a Hs Ho. unfold fn_body. simpl. do 2 f_equal.
    destruct a; try done.
    + by destruct (Hs s).
    + by destruct (Ho props).
Qed.

Lemma surplus_args_ignored_witness :
  invoke (action 7%nat "CHANGE_REGION" ["region"] mount).2
         (action 7%nat "CHANGE_REGION" ["region"] mount).1
         ([VNum 1] ++ [VNum 2; VNum 3])
  = invoke (action 7%nat "CHANGE_REGION" ["region"] mount).2
           (action 7%nat "CHANGE_REGION" ["region"] mount).1
           [VNum 1].
Proof.
  apply (proj1 (surplus_args_ignored 7%nat "CHANGE_REGION" ["region"]
                  (action 7%nat "CHANGE_REGION" ["region"] mount).2
                  (action 7%nat "CHANGE_REGION" ["region"] mount).1 eq_refl));
    [discriminate|simpl; lia].
Defined.

(** X7. Function objects and memoized keys correspond one to one in every
    instance a component can be in: there are as many function objects as
    memoized keys, every function object is memoized under the key of its
    kind and names, and every memoized entry is such a function object.
    So [action] never creates a function object it does not memoize and
    never replaces a memoized one. *)
Theorem heap_table_bijection (inst : instance) :
  reachable inst ->
  length (fns inst) = size (memoizedActionFns inst)
  /\ (forall f c, fns inst !! f = Some c ->
        memoizedActionFns inst !! fnKey (fn_type c) (fn_params c) = Some f)
  /\ (forall k f, memoizedActionFns inst !! k = Some f ->
        exists c, fns inst !! f = Some c /\ fnKey (fn_type c) (fn_params c) = k).
Proof.
  intros R. split; [|split; [|by apply reachable_wf]].
  - induction R as [|d type params inst R IH]; [done|].
    unfold action. destruct (memoizedActionFns inst !! fnKey type params) eqn:E; simpl.
    + done.
    + rewrite length_app, map_size_insert_None by done. simpl. lia.
  - induction R as [|d type params inst R IH]; intros f c; [done|].
    unfold action. destruct (memoizedActionFns inst !! fnKey type params) eqn:E; simpl.
    + apply IH.
    + intros Hf. apply lookup_app_Some in Hf as [Hf|[Hge Hf]].
      * specialize (IH f c Hf). rewrite lookup_insert_ne; [done|].
        intros Heq. rewrite Heq in E.
        pose proof (eq_trans (eq_sym IH) E) as X. discriminate X.
      * apply list_lookup_singleton_Some in Hf as [Hz <-]. simpl.
        replace f with (length (fns inst)) by lia. apply lookup_insert_eq.
Qed.

Lemma heap_table_bijection_witness :
  reachable (action 7%nat "MOUSE_UP" [] (action 7%nat "MOUSE_UP" [] mount).2).2
  /\ length (fns (action 7%nat "MOUSE_UP" [] (action 7%nat "MOUSE_UP" [] mount).2).2)
     = size (memoizedActionFns
               (action 7%nat "MOUSE_UP" [] (action 7%nat "MOUSE_UP" [] mount).2).2).
Proof.
  assert (reachable (action 7%nat "MOUSE_UP" [] (action 7%nat "MOUSE_UP" [] mount).2).2)
    as R by (do 2 constructor; constructor).
  split; [exact R|]. exact (proj1 (heap_table_bijection _ R)).
Defined.

(** X8. Binding and calling compose: in an instance whose function
    objects were all made for plain kinds and names (no parenthesis in a
    kind, names non-empty and without comma), binding a plain kind with
    plain names none of which is [__proto__], new or already memoized,
    returns a callable that dispatches exactly
    [{type, p0: a0, ..., pn: an}] for these names, to the sink of this
    call when the key was new; the instance stays of that sort. *)
Theorem bind_then_invoke (d : sink) (type : string) (params : list string)
    (inst : instance) (args : list value) :
  sound inst -> plain_kind type -> Forall plain_name params ->
  params <> [] -> "__proto__" ∉ params -> length args = length params ->
  exists d0,
    invoke (action d type params inst).2 (action d type params inst).1 args
    = Ok (d0, spec_action type params args)
    /\ (memoizedActionFns inst !! fnKey type params = None -> d0 = d)
    /\ sound (action d type params inst).2.
Proof.
  intros Hs Hk Hp Hne Hproto Hlen.
  destruct (action_plain_closure d type params inst Hk Hp Hs) as (d0 & Hc & Hd).
  exists d0. split; [|split; [done|by apply action_sound]].
  unfold invoke. rewrite Hc. by rewrite fn_body_params.
Qed.

Lemma bind_then_invoke_witness :
  exists d0,
    invoke (action 7%nat "DELETE_KEYFRAME" ["time"] mount).2
           (action 7%nat "DELETE_KEYFRAME" ["time"] mount).1 [VNum 1000]
    = Ok (d0, spec_action "DELETE_KEYFRAME" ["time"] [VNum 1000])
    /\ (memoizedActionFns mount !! fnKey "DELETE_KEYFRAME" ["time"] = None -> d0 = 7%nat)
    /\ sound (action 7%nat "DELETE_KEYFRAME" ["time"] mount).2.
Proof.
  apply (bind_then_invoke 7%nat "DELETE_KEYFRAME" ["time"] mount [VNum 1000] mount_sound);
    [reflexivity|repeat constructor; discriminate|discriminate| |reflexivity].
  refine (bool_decide_unpack _ _). vm_compute. exact I.
Defined.

(** ** Pieces of the body as clients of the memo table *)

Section Clients.

Lemma client_ret {A : Type} (P : A -> instance -> Prop) (a : A) :
  (forall i, P a i) -> client P (mret a).
Proof.
  intros H inst. exists (Normal a), []. repeat split; [constructor|done|].
  intros b [= <-] i2 _. apply H.
Qed.

Lemma client_eval {A : Type} (P : A -> instance -> Prop) (r : result A) :
  (forall a i, r = Ok a -> P a i) -> client P (eval r).
Proof.
  intros H inst. destruct r as [a|e].
  - exists (Normal a), []. repeat split; [constructor|done|].
    intros b [= <-] i2 _. by apply H.
  - exists (Abrupt e), []. repeat split; [constructor|done|]. intros b [=].
Qed.

Lemma client_bind {A B : Type} (Q : A -> instance -> Prop) (P : B -> instance -> Prop)
    (m : M A) (k : A -> M B) :
  client Q m ->
  (forall a, client (fun b i => Q a i -> P b i) (k a)) ->
  client P (m ≫= k).
Proof.
  intros Hm Hk inst.
  destruct (Hm inst) as (r1 & c1 & E1 & F1 & N1 & R1 & P1).
  destruct r1 as [a|v|e].
  - destruct (Hk a (run_actions c1 inst)) as (r2 & c2 & E2 & F2 & N2 & R2 & P2).
    assert (memoizedActionFns (run_actions c1 inst)
              ⊆ memoizedActionFns (run_actions (c1 ++ c2)%list inst)) as Hincl.
    { rewrite run_actions_app. apply run_actions_memo_incl. }
    exists r2, (c1 ++ c2)%list. split; [|split; [|split; [|split]]].
    + unfold mbind, M_bind. rewrite E1, run_actions_app. exact E2.
    + by apply Forall_app.
    + exact N2.
    + intros i2 Hi2. unfold mbind, M_bind.
      rewrite (R1 i2) by (etrans; [exact Hincl|exact Hi2]).
      apply R2. by rewrite <- run_actions_app.
    + intros b -> i2 Hi2. apply (P2 b eq_refl).
      * by rewrite <- run_actions_app.
      * apply (P1 a eq_refl). etrans; [exact Hincl|exact Hi2].
  - by destruct (N1 v).
  - exists (Abrupt e), c1. split; [|split; [done|split; [done|split]]].
    + unfold mbind, M_bind. by rewrite E1.
    + intros i2 Hi2. unfold mbind, M_bind. by rewrite (R1 i2 Hi2).
    + intros b [=].
Qed.

Lemma client_mono {A : Type} (P Q : A -> instance -> Prop) (m : M A) :
  (forall a i, P a i -> Q a i) -> client P m -> client Q m.
Proof.
  intros H Hm inst. destruct (Hm inst) as (r & c & E & F & N & R & HP).
  exists r, c. split; [done|]. split; [done|]. split; [done|]. split; [done|].
  intros a Hr i2 Hi2. apply H. by apply HP.
Qed.

Lemma client_bound d type params :
  (type, params) ∈ first_return_bindings ->
  client (bound_to type params) (bound d type params).
Proof.
  intros Hin inst.
  exists (Normal (Handler (BoundAction (action d type params inst).1))),
    [(d, type, params)].
  assert (forall i2,
    memoizedActionFns (action d type params inst).2 ⊆ memoizedActionFns i2 ->
    memoizedActionFns i2 !! fnKey type params = Some (action d type params inst).1)
    as Hkey.
  { intros i2 Hi2. eapply lookup_weaken; [apply action_memo_result|exact Hi2]. }
  split; [|split; [|split; [done|split]]].
  - unfold bound. simpl. by destruct (action d type params inst).
  - constructor; [exact Hin|constructor].
  - intros i2 Hi2. unfold bound. by rewrite (action_memo_hit _ _ _ _ _ (Hkey i2 Hi2)).
  - intros a [= <-] i2 Hi2. eexists. split; [done|]. by apply Hkey.
Qed.

Lemma client_when (P : node -> instance -> Prop) (c : bool) (m : M node) :
  client P m -> client (fun o i => forall n, o = Some n -> P n i) (when c m).
Proof.
  intros Hm. unfold when. destruct c.
  - eapply client_bind; [exact Hm|]. intros a. apply client_ret.
    intros i Ha n [= <-]. exact Ha.
  - apply client_ret. intros i n [=].
Qed.

End Clients.

(** ** Which prop is bound to what *)

Section Wiring.

Lemma wired_no_elements n i : elements n = [] -> wired n i.
Proof. intros H. unfold wired. rewrite H. constructor. Qed.

Lemma wired_opt_node {A : Type} (f : A -> node) (o : option A) i :
  (forall a, wired (f a) i) -> wired (opt_node f o) i.
Proof. intros H. destruct o; [apply H|by apply wired_no_elements]. Qed.

Lemma wired_bound_to type params n i : bound_to type params n i -> wired n i.
Proof. intros (f & -> & _). by apply wired_no_elements. Qed.

Lemma wired_element c (ps : list (string * node)) i :
  Forall (wired_row (Element c ps) i) handler_table ->
  Forall (fun kp => wired kp.2 i) ps ->
  wired (Element c ps) i.
Proof.
  intros Hrow Hps. unfold wired.
  change (elements (Element c ps))
    with (Element c ps :: flat_map (fun kp => elements kp.2) ps).
  constructor; [exact Hrow|]. clear Hrow.
  induction Hps as [|kp ps' H _ IH]; simpl; [constructor|]. by apply Forall_app.
Qed.

Lemma wired_nodes (l : list node) i : Forall (fun n => wired n i) l -> wired (Nodes l) i.
Proof.
  intros Hl. unfold wired. simpl.
  induction Hl as [|n l H _ IH]; simpl; [constructor|]. by apply Forall_app.
Qed.

Lemma wired_filter_Boolean (l : list (option node)) i :
  Forall (fun o => forall n, o = Some n -> wired n i) l ->
  Forall (fun n => wired n i) (filter_Boolean l).
Proof.
  unfold filter_Boolean. induction 1 as [|o l Ho _ IH]; simpl; [constructor|].
  destruct o as [n|]; simpl; [|done]. constructor; [by apply Ho|done].
Qed.

Lemma wired_spread_settings l i : Forall (fun kp => wired kp.2 i) (spread_settings l).
Proof.
  unfold spread_settings. induction l as [|kv l IH]; simpl; constructor; [|done].
  by apply wired_no_elements.
Qed.

End Wiring.

Section WiredElements.

Variable env : Env.
Variable props : Props.
Variable state : MainLayoutState.

Ltac in_bindings :=
  refine (bool_decide_unpack _ _); vm_compute; exact I.

Ltac step_client :=
  eapply client_bind; [apply client_bound; in_bindings|]; intros ?.

Ltac open_bound :=
  repeat match goal with
         | H : bound_to _ _ _ _ |- _ => destruct H as (? & -> & ?)
         end.

Ltac solve_wired_leaf :=
  repeat first
    [ apply wired_no_elements; reflexivity
    | apply wired_opt_node; intros
    | case_match ].

Ltac solve_row :=
  unfold wired_row; cbn [fst snd component_of];
  first
    [ by intros [=]
    | intros _; eexists; split;
      [ unfold prop_of; rewrite ?foldl_app; reflexivity | eassumption ] ].

Ltac solve_rows :=
  unfold handler_table; repeat (constructor; [solve_row|]); constructor.

Ltac solve_props :=
  repeat (constructor; [cbn [snd]; unfold regions_or_null; solve [solve_wired_leaf]|]);
  constructor.

Lemma canvas_wired activeImage implied :
  client (fun n i => wired n i /\ component_of n = "ImageCanvas"
                     /\ canvas_routing state n)
         (canvas_element env props state activeImage implied).
Proof.
  unfold canvas_element.
  eapply client_bind; [apply (client_eval (fun _ _ => True)); done|]. intros rs.
  do 16 step_client.
  apply client_ret. intros i. intros. open_bound. split; [|split; [done|]].
  - apply wired_element; [solve_rows|].
    apply Forall_app. split; [apply wired_spread_settings|]. solve_props.
  - unfold canvas_routing, prop_of. rewrite !foldl_app.
    by destruct (annotationType state).
Qed.

Ltac wired_elem := apply wired_element; [solve_rows|solve_props].

Lemma right_sidebar_wired activeImage :
  client (fun l i => Forall (fun o => forall n, o = Some n -> wired n i) l)
         (right_sidebar_items env props state activeImage).
Proof.
  unfold right_sidebar_items.
  eapply client_bind.
  { apply (client_when wired). step_client. apply client_ret.
    intros i. intros. open_bound. wired_elem. }
  intros tags.
  eapply client_bind.
  { apply (client_when wired). step_client. apply client_ret.
    intros i. intros. open_bound. wired_elem. }
  intros selector.
  do 3 step_client.
  eapply client_bind.
  { apply (client_when wired). do 3 step_client. apply client_ret.
    intros i. intros. open_bound. wired_elem. }
  intros kfsel.
  step_client. apply client_ret.
  intros i Hrestore Hkfsel Hchange Hdelete Hselect Hselector Htags. open_bound.
  constructor.
  { unfold debug_box. intros n. case_match; [|done]. intros [= <-]. wired_elem. }
  constructor.
  { intros n. destruct (taskDescription state) as [t|]; [|done].
    destruct (truthy (VStr t)); [|done]. intros [= <-]. wired_elem. }
  constructor; [exact Htags|]. constructor; [exact Hselector|].
  constructor.
  { intros n [= <-]. wired_elem. }
  constructor; [exact Hkfsel|].
  constructor; [|constructor].
  intros n [= <-]. wired_elem.
Qed.

Lemma workspace_wired activeImage canvas :
  client (fun ws i => wired canvas i ->
                      wired ws i /\ prop_of "children" ws = Some canvas)
         (workspace_element env props state activeImage canvas).
Proof.
  unfold workspace_element.
  eapply client_bind.
  { apply (client_when wired). step_client. apply client_ret.
    intros i. intros. open_bound. wired_elem. }
  intros timeline.
  eapply client_bind; [apply right_sidebar_wired|]. intros items.
  apply client_ret. intros i Hitems Htimeline Hcanvas. split; [|done].
  apply wired_element; [solve_rows|].
  constructor; [by apply wired_no_elements|].
  constructor; [by apply wired_no_elements|].
  constructor.
  { cbn [snd]. apply wired_nodes, wired_filter_Boolean.
    constructor; [exact Htimeline|constructor]. }
  constructor.
  { cbn [snd]. apply wired_nodes, wired_filter_Boolean.
    repeat (constructor; [intros n Hn; repeat case_match; try done;
                          injection Hn as <-; by apply wired_no_elements|]).
    constructor. }
  constructor; [by apply wired_no_elements|].
  constructor; [by apply wired_no_elements|].
  constructor.
  { cbn [snd]. apply wired_nodes.
    repeat (constructor; [by apply wired_no_elements|]). constructor. }
  constructor.
  { cbn [snd]. by apply wired_nodes, wired_filter_Boolean. }
  constructor; [exact Hcanvas|constructor].
Qed.

Lemma first_return_element_wired :
  client (fun ws i =>
            wired ws i
            /\ exists canvas, prop_of "children" ws = Some canvas
                              /\ component_of canvas = "ImageCanvas"
                              /\ canvas_routing state canvas)
         (first_return_element env props state).
Proof.
  unfold first_return_element.
  eapply client_bind; [apply canvas_wired|]. intros canvas.
  eapply client_mono; [|apply workspace_wired].
  intros ws i Hws (Hcanvas & Hc & Hr). destruct (Hws Hcanvas) as [H1 H2].
  split; [exact H1|]. exists canvas. split; [exact H2|]. split; [exact Hc|exact Hr].
Qed.

Lemma mbind_run {A B : Type} (m : M A) (k : A -> M B) (inst : instance) :
  (m ≫= k) inst
  = match m inst with
    | (Normal a, i) => k a i
    | (Return v, i) => (Return v, i)
    | (Abrupt e, i) => (Abrupt e, i)
    end.
Proof. reflexivity. Qed.

(** A render is the canvas and the first [return] built one after the
    other, and returned. *)
Lemma MainLayout_finish inst :
  MainLayout env props state inst = finish (first_return_element env props state inst).
Proof.
  unfold MainLayout, call_component, MainLayout_body, first_return_element.
  destruct (nextImage_of_resolved state) as [n Hn].
  destruct (getActiveImage state) as [idx activeImage]. simpl in Hn. cbn [fst snd].
  rewrite (mbind_run (eval (nextImage_of state idx))), Hn. cbn [eval].
  rewrite !mbind_run.
  destruct (canvas_element env props state activeImage (useImpliedVideoRegions state) inst)
    as [[canvas|v|e] i1]; [|reflexivity..].
  rewrite !mbind_run.
  destruct (workspace_element env props state activeImage canvas i1)
    as [[ws|v|e] i2]; reflexivity.
Qed.

End WiredElements.

(** ** Renders over time *)

Section RenderFacts.

Lemma first_return_plain :
  Forall (fun b => plain_kind b.1 /\ Forall plain_name b.2) first_return_bindings.
Proof.
  unfold first_return_bindings.
  repeat (constructor; [split; [reflexivity|repeat (constructor; [split; [discriminate|reflexivity]|]); constructor]|]).
  constructor.
Qed.

Lemma first_return_call_plain c :
  first_return_call c -> plain_kind c.1.2 /\ Forall plain_name c.2.
Proof.
  intros H. pose proof first_return_plain as HP.
  rewrite Forall_forall in HP. exact (HP _ H).
Qed.

Lemma run_actions_sound calls inst :
  Forall first_return_call calls -> sound inst -> sound (run_actions calls inst).
Proof.
  intros H. revert inst. induction H as [|c calls Hc _ IH]; intros inst Hs; [done|].
  simpl. apply IH. destruct (first_return_call_plain c Hc). by apply action_sound.
Qed.

Lemma action_new_key d type params inst k :
  is_Some (memoizedActionFns (action d type params inst).2 !! k) ->
  is_Some (memoizedActionFns inst !! k) \/ k = fnKey type params.
Proof.
  unfold action. destruct (memoizedActionFns inst !! fnKey type params) eqn:E; simpl.
  - by left.
  - intros H. destruct (decide (k = fnKey type params)) as [->|Hne]; [by right|].
    left. by rewrite lookup_insert_ne in H.
Qed.

Lemma run_actions_keys calls inst k :
  Forall first_return_call calls ->
  is_Some (memoizedActionFns (run_actions calls inst) !! k) ->
  is_Some (memoizedActionFns inst !! k) \/ k ∈ map key_of first_return_bindings.
Proof.
  intros H. revert inst. induction H as [|c calls Hc _ IH]; intros inst Hk; [by left|].
  simpl in Hk. destruct (IH _ Hk) as [Hk'|Hk']; [|by right].
  destruct (action_new_key _ _ _ _ _ Hk') as [Hin| ->]; [by left|].
  right. apply list_elem_of_fmap. by exists (c.1.2, c.2).
Qed.

Lemma memo_closure inst type params f :
  sound inst -> plain_kind type -> Forall plain_name params ->
  memoizedActionFns inst !! fnKey type params = Some f ->
  exists d0, fns inst !! f = Some (Closure type params d0).
Proof.
  intros Hs Hk Hp Hf.
  destruct (action_plain_closure 0%nat type params inst Hk Hp Hs) as (d0 & Hc & _).
  rewrite (action_memo_hit _ _ _ _ _ Hf) in Hc. by exists d0.
Qed.

Lemma handler_table_bindings :
  Forall (fun row => row.2 ∈ first_return_bindings) handler_table.
Proof.
  unfold handler_table.
  repeat (constructor; [refine (bool_decide_unpack _ _); vm_compute; exact I|]).
  constructor.
Qed.

Lemma last_prop_in k (ps : list (string * node)) : forall acc v,
  foldl (last_prop k) acc ps = Some v -> acc = Some v \/ v ∈ map snd ps.
Proof.
  induction ps as [|kp ps IH]; intros acc v H; simpl in *; [by left|].
  destruct (IH _ _ H) as [Hacc|Hin].
  - unfold last_prop in Hacc. destruct (String.eqb kp.1 k); [|by left].
    right. injection Hacc as <-. apply elem_of_cons. by left.
  - right. apply elem_of_cons. by right.
Qed.

Lemma prop_of_elements k n c ps :
  prop_of k n = Some (Element c ps) -> Element c ps ∈ elements n.
Proof.
  destruct n as [| | | | | | | |c0 ps0|]; try done. simpl. intros H.
  destruct (last_prop_in _ _ _ _ H) as [|Hin]; [done|].
  apply elem_of_cons. right.
  apply list_elem_of_fmap in Hin as [kp [Hkp Hin]].
  apply list_elem_of_In, in_flat_map. exists kp.
  split; [by apply list_elem_of_In|]. rewrite <- Hkp. simpl. by left.
Qed.

Section OneState.

Variable env : Env.
Variable props : Props.
Variable state : MainLayoutState.

Lemma MainLayout_client inst :
  exists r calls,
    MainLayout env props state inst = (r, run_actions calls inst)
    /\ Forall first_return_call calls
    /\ (forall i2,
          memoizedActionFns (run_actions calls inst) ⊆ memoizedActionFns i2 ->
          MainLayout env props state i2 = (r, i2))
    /\ (forall ws, r = Ok ws ->
          wired ws (run_actions calls inst)
          /\ exists canvas, prop_of "children" ws = Some canvas
                            /\ component_of canvas = "ImageCanvas"
                            /\ canvas_routing state canvas).
Proof.
  destruct (first_return_element_wired env props state inst)
    as (r & calls & E & F & N & R & P).
  exists (finish (r, run_actions calls inst)).1, calls.
  split; [|split; [done|split]].
  - rewrite MainLayout_finish, E. by destruct r.
  - intros i2 Hi2. rewrite MainLayout_finish, (R i2 Hi2). by destruct r.
  - intros ws Hws. destruct r as [a|v|e]; simpl in Hws.
    + injection Hws as ->. by apply (P ws eq_refl).
    + by destruct (N v).
    + discriminate Hws.
Qed.

End OneState.

Lemma renders_as_actions l : forall inst,
  exists calls, renders l inst = run_actions calls inst /\ Forall first_return_call calls.
Proof.
  induction l as [|[[env props] st] l IH]; intros inst; [by exists []|].
  destruct (MainLayout_client env props st inst) as (r & c1 & E & F1 & _).
  simpl. rewrite E. simpl.
  destruct (IH (run_actions c1 inst)) as (c2 & E2 & F2).
  exists (c1 ++ c2)%list. split; [by rewrite run_actions_app|by apply Forall_app].
Qed.

Lemma prefix_append needle : forall s,
  String.prefix needle s = true <-> exists post, s = needle +:+ post.
Proof.
  induction needle as [|a n IH]; intros s.
  - split; [by exists s|by destruct s].
  - destruct s as [|b s]; simpl.
    + split; [done|by intros [post [=]]].
    + destruct (ascii_dec a b) as [->|Hab].
      * rewrite IH. split; intros [post H]; exists post; [by rewrite H|by injection H].
      * split; [done|]. intros [post H]. injection H as H1 H2. by destruct Hab.
Qed.

(** [s.includes(needle)] holds exactly of the strings in which [needle]
    occurs. *)
Lemma includes_occurs needle : forall s,
  includes needle s = true <-> exists pre post, s = pre +:+ needle +:+ post.
Proof.
  induction s as [|c r IH];
    [change (includes needle EmptyString)
       with (if String.prefix needle EmptyString then true else false)
    |change (includes needle (String c r))
       with (if String.prefix needle (String c r) then true else includes needle r)].
  - destruct (String.prefix needle EmptyString) eqn:E.
    + split; [|done]. intros _. apply prefix_append in E as [post ->].
      by exists EmptyString, post.
    + split; [done|]. intros (pre & post & H).
      destruct pre as [|c pre]; [|discriminate H]. simpl in H.
      assert (String.prefix needle EmptyString = true) as E'
        by (apply prefix_append; by exists post).
      congruence.
  - destruct (String.prefix needle (String c r)) eqn:E.
    + split; [|done]. intros _. apply prefix_append in E as [post E].
      by exists EmptyString, post.
    + rewrite IH. split.
      * intros (pre & post & ->). by exists (String c pre), post.
      * intros (pre & post & H). destruct pre as [|c' pre]; simpl in H.
        -- assert (String.prefix needle (String c r) = true) as E'
             by (apply prefix_append; by exists post).
           congruence.
        -- injection H as _ ->. by exists pre, post.
Qed.

End RenderFacts.

(** X9. Rendering a state again returns the identical element, with the
    identical callables in it, and creates no function object: after a
    render, and after any further renders of whatever states, a render
    with the same environment, props and state gives the result of the
    first and leaves the instance as it finds it. *)
Theorem rerender_stable (env : Env) (props : Props) (st : MainLayoutState)
    (inst : instance) (l : list (Env * Props * MainLayoutState)) :
  let first := MainLayout env props st inst in
  MainLayout env props st (renders l first.2) = (first.1, renders l first.2).
Proof.
  simpl. destruct (MainLayout_client env props st inst) as (r & calls & E & _ & R & _).
  rewrite E. simpl. apply R.
  destruct (renders_as_actions l (run_actions calls inst)) as (c2 & -> & _).
  apply run_actions_memo_incl.
Qed.

(** X10. However many renders a mounted component goes through, with
    whatever environments, props and states, it never holds more than 19
    function objects: the memoized keys are among those of the 19
    bindings of the canvas and the first [return], and every function
    object is memoized, plain, under its own key. *)
Theorem renders_bounded (l : list (Env * Props * MainLayoutState)) :
  sound (renders l mount)
  /\ (length (fns (renders l mount)) <= 19)%nat
  /\ forall k, is_Some (memoizedActionFns (renders l mount) !! k) ->
       k ∈ map key_of first_return_bindings.
Proof.
  destruct (renders_as_actions l mount) as (calls & -> & F).
  assert (sound (run_actions calls mount)) as Hs
    by (apply run_actions_sound; [done|apply mount_sound]).
  assert (forall k, is_Some (memoizedActionFns (run_actions calls mount) !! k) ->
            k ∈ map key_of first_return_bindings) as Hkeys.
  { intros k Hk. destruct (run_actions_keys _ _ _ F Hk) as [[f Hf]|Hin]; [|done].
    simpl in Hf. by rewrite lookup_empty in Hf. }
  split; [done|]. split; [|done].
  destruct Hs as (_ & -> & _).
  assert (dom (memoizedActionFns (run_actions calls mount))
            ⊆ (list_to_set (map key_of first_return_bindings) : gset string)) as Hdom.
  { intros k Hk. apply elem_of_dom in Hk. apply elem_of_list_to_set. by apply Hkeys. }
  apply subseteq_size in Hdom. rewrite size_dom in Hdom.
  rewrite size_list_to_set in Hdom; [exact Hdom|].
  refine (bool_decide_unpack _ _). vm_compute. exact I.
Qed.

(** X11. Every handler prop of every element a render returns is bound
    as the JSX says: for each row of the table (component, prop, kind,
    names) and each element of that component in the tree, the prop
    holds a callable that is the function object made for exactly that
    kind and those names, so calling it dispatches that action and never
    fails. The tree always holds the canvas. In particular the [onSelect]
    of [ImageSelector] dispatches [SELECT_REGION] with the field
    [region]. *)
Theorem handlers_wired (env : Env) (props : Props) (st : MainLayoutState)
    (inst : instance) (ws : node) (inst' : instance) :
  sound inst ->
  MainLayout env props st inst = (Ok ws, inst') ->
  sound inst'
  /\ (exists canvas, canvas ∈ elements ws /\ component_of canvas = "ImageCanvas")
  /\ forall e c p type params,
       e ∈ elements ws -> (c, p, (type, params)) ∈ handler_table ->
       component_of e = c ->
       exists f d0,
         prop_of p e = Some (Handler (BoundAction f))
         /\ fns inst' !! f = Some (Closure type params d0)
         /\ forall args,
              invoke inst' f args = Ok (d0, (fn_body (Closure type params d0) args).2).
Proof.
  intros Hs E.
  destruct (MainLayout_client env props st inst) as (r & calls & E' & F & _ & P).
  rewrite E in E'. injection E' as <- ->.
  destruct (P ws eq_refl) as (Hw & canvas & Hchildren & Hc & _).
  assert (sound (run_actions calls inst)) as Hs' by by apply run_actions_sound.
  split; [done|]. split.
  - exists canvas. split; [|done].
    destruct canvas as [| | | | | | | |c0 ps0|]; try discriminate Hc.
    by apply (prop_of_elements "children").
  - intros e c p type params He Hrow Hcomp.
    unfold wired in Hw. rewrite Forall_forall in Hw. specialize (Hw e He).
    rewrite Forall_forall in Hw.
    destruct (Hw _ Hrow Hcomp) as (f & Hp & Hf). cbn [fst snd] in Hp, Hf.
    pose proof handler_table_bindings as HB. rewrite Forall_forall in HB.
    destruct (first_return_call_plain (0%nat, type, params) (HB _ Hrow)) as [Hk Hn].
    destruct (memo_closure _ _ _ _ Hs' Hk Hn Hf) as (d0 & Hcl).
    exists f, d0. split; [done|]. split; [done|].
    intros args. unfold invoke. rewrite Hcl. f_equal. unfold fn_body. simpl.
    by destruct (decide (0 < length params)%nat).
Qed.

Lemma handlers_wired_witness :
  match MainLayout (Samples.environment None) Samples.some_props
                   (Samples.image_state (Some "a")) mount with
  | (Ok ws, inst') =>
      sound inst'
      /\ (exists canvas, canvas ∈ elements ws /\ component_of canvas = "ImageCanvas")
      /\ forall e c p type params,
           e ∈ elements ws -> (c, p, (type, params)) ∈ handler_table ->
           component_of e = c ->
           exists f d0,
             prop_of p e = Some (Handler (BoundAction f))
             /\ fns inst' !! f = Some (Closure type params d0)
             /\ forall args,
                  invoke inst' f args
                  = Ok (d0, (fn_body (Closure type params d0) args).2)
  | (Throw _, _) => False
  end.
Proof.
  destruct (MainLayout (Samples.environment None) Samples.some_props
              (Samples.image_state (Some "a")) mount) as [[ws|e] inst'] eqn:E.
  - exact (handlers_wired _ _ _ _ _ _ mount_sound E).
  - vm_compute in E. discriminate E.
Defined.

(** X12. The canvas of a render never gets both an image source and a
    video source. In image mode it gets [selectedImage] as [imageSrc],
    [null] as [videoSrc] and the frame time of the selected image as
    [videoTime]; in video mode [null] as [imageSrc], the [videoSrc] of
    the state and its current video time. *)
Theorem canvas_sources_exclusive (env : Env) (props : Props) (st : MainLayoutState)
    (inst : instance) (ws : node) (inst' : instance) :
  MainLayout env props st inst = (Ok ws, inst') ->
  exists canvas,
    prop_of "children" ws = Some canvas
    /\ (prop_of "imageSrc" canvas = Some (Data VNull)
        \/ prop_of "videoSrc" canvas = Some (Data VNull))
    /\ (annotationType st = ImageMode ->
        prop_of "imageSrc" canvas = Some (opt_node str_node (selectedImage st))
        /\ prop_of "videoSrc" canvas = Some (Data VNull)
        /\ prop_of "videoTime" canvas
           = Some (opt_node num_node (selectedImageFrameTime st)))
    /\ (annotationType st = VideoMode ->
        prop_of "imageSrc" canvas = Some (Data VNull)
        /\ prop_of "videoSrc" canvas = Some (opt_node str_node (videoSrc st))
        /\ prop_of "videoTime" canvas = Some (num_node (currentVideoTime st))).
Proof.
  intros E.
  destruct (MainLayout_client env props st inst) as (r & calls & E' & _ & _ & P).
  rewrite E in E'. injection E' as <- ->.
  destruct (P ws eq_refl) as (_ & canvas & Hchildren & _ & Hi & Hv & Ht & _).
  exists canvas. split; [done|].
  destruct (annotationType st); (split; [by auto|]); split; by intros [=].
Qed.

Lemma canvas_sources_exclusive_witness :
  match MainLayout (Samples.environment None) Samples.some_props
                   (Samples.video_state 0) mount with
  | (Ok ws, _) =>
      exists canvas,
        prop_of "children" ws = Some canvas
        /\ (prop_of "imageSrc" canvas = Some (Data VNull)
            \/ prop_of "videoSrc" canvas = Some (Data VNull))
        /\ (annotationType (Samples.video_state 0) = ImageMode ->
            prop_of "imageSrc" canvas
            = Some (opt_node str_node (selectedImage (Samples.video_state 0)))
            /\ prop_of "videoSrc" canvas = Some (Data VNull)
            /\ prop_of "videoTime" canvas
               = Some (opt_node num_node (selectedImageFrameTime (Samples.video_state 0))))
        /\ (annotationType (Samples.video_state 0) = VideoMode ->
            prop_of "imageSrc" canvas = Some (Data VNull)
            /\ prop_of "videoSrc" canvas
               = Some (opt_node str_node (videoSrc (Samples.video_state 0)))
            /\ prop_of "videoTime" canvas
               = Some (num_node (currentVideoTime (Samples.video_state 0))))
  | (Throw _, _) => False
  end.
Proof.
  destruct (MainLayout (Samples.environment None) Samples.some_props
              (Samples.video_state 0) mount) as [[ws|e] inst'] eqn:E.
  - exact (canvas_sources_exclusive _ _ _ _ _ _ E).
  - vm_compute in E. discriminate E.
Defined.

(** X13. Whatever the selected tool, at most one of the canvas props
    [createWithPrimary], [dragWithPrimary] and [zoomWithPrimary] is
    [true]: [createWithPrimary] is [true] exactly for the tools in whose
    name ["create"] occurs, [dragWithPrimary] exactly for the tool
    ["pan"], [zoomWithPrimary] exactly for the tool ["zoom"]. *)
Theorem primary_tool_exclusive (env : Env) (props : Props) (st : MainLayoutState)
    (inst : instance) (ws : node) (inst' : instance) :
  MainLayout env props st inst = (Ok ws, inst') ->
  exists canvas create drag zoom,
    prop_of "children" ws = Some canvas
    /\ prop_of "createWithPrimary" canvas = Some (Data (VBool create))
    /\ prop_of "dragWithPrimary" canvas = Some (Data (VBool drag))
    /\ prop_of "zoomWithPrimary" canvas = Some (Data (VBool zoom))
    /\ create = includes "create" (selectedTool st)
    /\ (create = true <-> exists pre post, selectedTool st = pre +:+ "create" +:+ post)
    /\ (drag = true <-> selectedTool st = "pan")
    /\ (zoom = true <-> selectedTool st = "zoom")
    /\ create && drag = false /\ create && zoom = false /\ drag && zoom = false.
Proof.
  intros E.
  destruct (MainLayout_client env props st inst) as (r & calls & E' & _ & _ & P).
  rewrite E in E'. injection E' as <- ->.
  destruct (P ws eq_refl) as (_ & canvas & Hchildren & _ & _ & _ & _ & Hc & Hd & Hz).
  exists canvas, (includes "create" (selectedTool st)),
    (String.eqb (selectedTool st) "pan"), (String.eqb (selectedTool st) "zoom").
  split; [done|]. split; [done|]. split; [done|]. split; [done|].
  split; [done|]. split; [apply includes_occurs|].
  rewrite !String.eqb_eq. split; [done|]. split; [done|].
  destruct (String.eqb_spec (selectedTool st) "pan") as [->|Hp];
    destruct (String.eqb_spec (selectedTool st) "zoom") as [Hz'|Hz'];
    try discriminate Hz'; try rewrite Hz'; repeat split; try done;
    try apply andb_false_r.
Qed.

Lemma primary_tool_exclusive_witness :
  match MainLayout (Samples.environment None) Samples.some_props
                   (with_tool "create-box" (Samples.video_state 0)) mount with
  | (Ok ws, _) =>
      exists canvas create drag zoom,
        prop_of "children" ws = Some canvas
        /\ prop_of "createWithPrimary" canvas = Some (Data (VBool create))
        /\ prop_of "dragWithPrimary" canvas = Some (Data (VBool drag))
        /\ prop_of "zoomWithPrimary" canvas = Some (Data (VBool zoom))
        /\ create = includes "create"
                      (selectedTool (with_tool "create-box" (Samples.video_state 0)))
        /\ (create = true <->
            exists pre post,
              selectedTool (with_tool "create-box" (Samples.video_state 0))
              = pre +:+ "create" +:+ post)
        /\ (drag = true <->
            selectedTool (with_tool "create-box" (Samples.video_state 0)) = "pan")
        /\ (zoom = true <->
            selectedTool (with_tool "create-box" (Samples.video_state 0)) = "zoom")
        /\ create && drag = false /\ create && zoom = false /\ drag && zoom = false
  | (Throw _, _) => False
  end.
Proof.
  destruct (MainLayout (Samples.environment None) Samples.some_props
              (with_tool "create-box" (Samples.video_state 0)) mount)
    as [[ws|e] inst'] eqn:E.
  - exact (primary_tool_exclusive _ _ _ _ _ _ E).
  - vm_compute in E. discriminate E.
Defined.

(** ** What the first [return] lays out *)

Section Layouts.

Variable env : Env.
Variable props : Props.
Variable state : MainLayoutState.

Lemma client_when_cases (P : node -> instance -> Prop) (c : bool) (m : M node) :
  client P m ->
  client (fun o i => if c then exists n, o = Some n /\ P n i else o = None) (when c m).
Proof.
  intros Hm. unfold when. destruct c.
  - eapply client_bind; [exact Hm|]. intros a. apply client_ret.
    intros i Ha. by exists a.
  - by apply client_ret.
Qed.

Ltac in_bindings :=
  refine (bool_decide_unpack _ _); vm_compute; exact I.

Ltac step_client :=
  eapply client_bind; [apply client_bound; in_bindings|]; intros ?.

Ltac boxed c :=
  apply (client_when_cases (fun n _ => component_of n = c));
  repeat step_client; apply client_ret; reflexivity.

Lemma right_sidebar_layout activeImage :
  client (fun l _ =>
            map component_of (filter_Boolean l)
            = ((match localStorage env !! "$ANNOTATE_DEBUG_MODE" with
                | Some (String _ _) => ["DebugBox"]
                | _ => []
                end)
               ++ (match taskDescription state with
                   | Some (String _ _) => ["TaskDescription"]
                   | _ => []
                   end)
               ++ (if labelImages state then ["TagsSidebarBox"] else [])
               ++ (if bool_decide (1 < length (default [] (images state)))%nat
                   then ["ImageSelector"] else [])
               ++ ["RegionSelector"]
               ++ (match keyframes state with
                   | Some _ => ["KeyframesSelector"]
                   | None => []
                   end)
               ++ ["HistorySidebarBox"])%list)
         (right_sidebar_items env props state activeImage).
Proof.
  unfold right_sidebar_items.
  eapply client_bind; [boxed "TagsSidebarBox"|]. intros tags.
  eapply client_bind; [boxed "ImageSelector"|]. intros selector.
  do 3 step_client.
  eapply client_bind; [boxed "KeyframesSelector"|]. intros kfsel.
  step_client. apply client_ret.
  intros i _ Hkfsel _ _ _ Hselector Htags.
  unfold several_images in Hselector.
  assert (map component_of (filter_Boolean [debug_box env state])
          = match localStorage env !! "$ANNOTATE_DEBUG_MODE" with
            | Some (String _ _) => ["DebugBox"]
            | _ => []
            end) as Hdebug.
  { unfold debug_box, debugModeOn, debug_flag.
    by destruct (localStorage env !! "$ANNOTATE_DEBUG_MODE") as [[|c s]|]. }
  unfold filter_Boolean in *.
  match goal with
  | |- context [omap id (?x :: ?l)] => change (x :: l) with ([x] ++ l)%list
  end.
  rewrite omap_app, map_app, Hdebug. f_equal.
  destruct (taskDescription state) as [[|c s]|];
    destruct (labelImages state);
    destruct (bool_decide (1 < length (default [] (images state)))%nat);
    destruct (keyframes state) as [kfs|];
    simpl in Hkfsel, Hselector, Htags;
    repeat match goal with
           | H : exists _, _ |- _ => destruct H as (? & -> & ?)
           | H : is_Some None |- _ => by destruct H
           end; subst; simpl in *;
    repeat match goal with
           | H : component_of _ = _ |- _ => rewrite H; clear H
           end; try reflexivity.
Qed.

Lemma workspace_layout activeImage canvas :
  client (fun ws _ =>
            exists left items,
              prop_of "headerLeftSide" ws = Some (Nodes left)
              /\ map component_of left
                 = match annotationType state with
                   | VideoMode => ["KeyframeTimeline"]
                   | ImageMode => []
                   end
              /\ prop_of "headerItems" ws
                 = Some (Nodes (map named
                           (["Prev"; "Next"]
                            ++ match annotationType state with
                               | VideoMode =>
                                   [if videoPlaying state then "Pause" else "Play"]
                               | ImageMode => []
                               end
                            ++ ["Settings"; "Fullscreen"; "Save"])%list))
              /\ prop_of "rightSidebarItems" ws = Some (Nodes items)
              /\ map component_of items
                 = ((match localStorage env !! "$ANNOTATE_DEBUG_MODE" with
                     | Some (String _ _) => ["DebugBox"]
                     | _ => []
                     end)
                    ++ (match taskDescription state with
                        | Some (String _ _) => ["TaskDescription"]
                        | _ => []
                        end)
                    ++ (if labelImages state then ["TagsSidebarBox"] else [])
                    ++ (if bool_decide (1 < length (default [] (images state)))%nat
                        then ["ImageSelector"] else [])
                    ++ ["RegionSelector"]
                    ++ (match keyframes state with
                        | Some _ => ["KeyframesSelector"]
                        | None => []
                        end)
                    ++ ["HistorySidebarBox"])%list)
         (workspace_element env props state activeImage canvas).
Proof.
  unfold workspace_element.
  eapply client_bind; [boxed "KeyframeTimeline"|]. intros timeline.
  eapply client_bind; [apply right_sidebar_layout|]. intros items.
  apply client_ret. intros i Hitems Htimeline.
  exists (filter_Boolean [timeline]), (filter_Boolean items).
  split; [reflexivity|]. split.
  { destruct (annotationType state).
    - by rewrite Htimeline.
    - destruct Htimeline as (n & -> & Hn). simpl. by rewrite Hn. }
  split.
  { unfold prop_of. cbn [foldl last_prop fst snd String.eqb Ascii.eqb Bool.eqb].
    by destruct (annotationType state), (videoPlaying state). }
  split; [reflexivity|exact Hitems].
Qed.

Lemma first_return_layout :
  client (fun ws _ =>
            exists left items,
              prop_of "headerLeftSide" ws = Some (Nodes left)
              /\ map component_of left
                 = match annotationType state with
                   | VideoMode => ["KeyframeTimeline"]
                   | ImageMode => []
                   end
              /\ prop_of "headerItems" ws
                 = Some (Nodes (map named
                           (["Prev"; "Next"]
                            ++ match annotationType state with
                               | VideoMode =>
                                   [if videoPlaying state then "Pause" else "Play"]
                               | ImageMode => []
                               end
                            ++ ["Settings"; "Fullscreen"; "Save"])%list))
              /\ prop_of "rightSidebarItems" ws = Some (Nodes items)
              /\ map component_of items
                 = ((match localStorage env !! "$ANNOTATE_DEBUG_MODE" with
                     | Some (String _ _) => ["DebugBox"]
                     | _ => []
                     end)
                    ++ (match taskDescription state with
                        | Some (String _ _) => ["TaskDescription"]
                        | _ => []
                        end)
                    ++ (if labelImages state then ["TagsSidebarBox"] else [])
                    ++ (if bool_decide (1 < length (default [] (images state)))%nat
                        then ["ImageSelector"] else [])
                    ++ ["RegionSelector"]
                    ++ (match keyframes state with
                        | Some _ => ["KeyframesSelector"]
                        | None => []
                        end)
                    ++ ["HistorySidebarBox"])%list)
         (first_return_element env props state).
Proof.
  unfold first_return_element.
  eapply client_bind; [apply canvas_wired|]. intros canvas.
  eapply client_mono; [|apply workspace_layout]. by intros ws i H _.
Qed.

(** What holds of the normal result of the body holds of the element a
    render returns. *)
Lemma MainLayout_result (P : node -> instance -> Prop) inst ws inst' :
  client P (first_return_element env props state) ->
  MainLayout env props state inst = (Ok ws, inst') ->
  P ws inst'.
Proof.
  intros HP E. destruct (HP inst) as (r & calls & E' & _ & N & _ & HPr).
  rewrite MainLayout_finish, E' in E.
  destruct r as [a|v|e]; simpl in E.
  - injection E as -> <-. by apply (HPr ws eq_refl).
  - by destruct (N v).
  - discriminate E.
Qed.

End Layouts.

(** X14. What a render lays out around the canvas. The right sidebar
    holds, in this order: the debug box when the debug flag of the local
    storage is a non-empty string; the task description when the state
    has a non-empty one; the tags box when images are labelled; the image
    selector when there are at least two images (none when [images] is
    missing); the region selector, always; the keyframes selector when
    the state has keyframes; the history box, always. The left side of
    the header holds the keyframe timeline in video mode and nothing in
    image mode, and the header items are Prev, Next, then in video mode
    Play or Pause (Pause while the video plays), then Settings,
    Fullscreen and Save. *)
Theorem sidebar_boxes (env : Env) (props : Props) (st : MainLayoutState)
    (inst : instance) (ws : node) (inst' : instance) :
  MainLayout env props st inst = (Ok ws, inst') ->
  exists left items,
    prop_of "headerLeftSide" ws = Some (Nodes left)
    /\ map component_of left
       = match annotationType st with
         | VideoMode => ["KeyframeTimeline"]
         | ImageMode => []
         end
    /\ prop_of "headerItems" ws
       = Some (Nodes (map named
                 (["Prev"; "Next"]
                  ++ match annotationType st with
                     | VideoMode => [if videoPlaying st then "Pause" else "Play"]
                     | ImageMode => []
                     end
                  ++ ["Settings"; "Fullscreen"; "Save"])%list))
    /\ prop_of "rightSidebarItems" ws = Some (Nodes items)
    /\ map component_of items
       = ((match localStorage env !! "$ANNOTATE_DEBUG_MODE" with
           | Some (String _ _) => ["DebugBox"]
           | _ => []
           end)
          ++ (match taskDescription st with
              | Some (String _ _) => ["TaskDescription"]
              | _ => []
              end)
          ++ (if labelImages st then ["TagsSidebarBox"] else [])
          ++ (if bool_decide (1 < length (default [] (images st)))%nat
              then ["ImageSelector"] else [])
          ++ ["RegionSelector"]
          ++ (match keyframes st with
              | Some _ => ["KeyframesSelector"]
              | None => []
              end)
          ++ ["HistorySidebarBox"])%list.
Proof.
  intros E.
  exact (MainLayout_result env props st _ inst ws inst'
           (first_return_layout env props st) E).
Qed.

Lemma sidebar_boxes_witness :
  match MainLayout (Samples.environment (Some "1")) Samples.some_props
                   (Samples.video_state 0) mount with
  | (Ok ws, _) =>
      exists left items,
        prop_of "headerLeftSide" ws = Some (Nodes left)
        /\ map component_of left
           = match annotationType (Samples.video_state 0) with
             | VideoMode => ["KeyframeTimeline"]
             | ImageMode => []
             end
        /\ prop_of "headerItems" ws
           = Some (Nodes (map named
                     (["Prev"; "Next"]
                      ++ match annotationType (Samples.video_state 0) with
                         | VideoMode =>
                             [if videoPlaying (Samples.video_state 0)
                              then "Pause" else "Play"]
                         | ImageMode => []
                         end
                      ++ ["Settings"; "Fullscreen"; "Save"])%list))
        /\ prop_of "rightSidebarItems" ws = Some (Nodes items)
        /\ map component_of items
           = ((match localStorage (Samples.environment (Some "1"))
                       !! "$ANNOTATE_DEBUG_MODE" with
               | Some (String _ _) => ["DebugBox"]
               | _ => []
               end)
              ++ (match taskDescription (Samples.video_state 0) with
                  | Some (String _ _) => ["TaskDescription"]
                  | _ => []
                  end)
              ++ (if labelImages (Samples.video_state 0) then ["TagsSidebarBox"] else [])
              ++ (if bool_decide
                       (1 < length (default [] (images (Samples.video_state 0))))%nat
                  then ["ImageSelector"] else [])
              ++ ["RegionSelector"]
              ++ (match keyframes (Samples.video_state 0) with
                  | Some _ => ["KeyframesSelector"]
                  | None => []
                  end)
              ++ ["HistorySidebarBox"])%list
  | (Throw _, _) => False
  end.
Proof.
  destruct (MainLayout (Samples.environment (Some "1")) Samples.some_props
              (Samples.video_state 0) mount) as [[ws|e] inst'] eqn:E.
  - exact (sidebar_boxes _ _ _ _ _ _ E).
  - vm_compute in E. discriminate E.
Defined.
